(** * Peekaboo: the [Sample] class of [peekaboo/sample.py]

    A shallow embedding of the sample object of the Peekaboo mail
    attachment scanner and the properties of its attribute store, its
    memoised accessors, its job hash, its MIME type resolution, its verdict
    aggregation and its report channel.

    Python's objects are modelled by a record ([Sample]) holding the private
    fields of the class, the attribute dictionary by a [gmap] from keys to
    dynamically typed values ([value]), and everything outside the object
    (file system, clock, libmagic, the random names, the socket) by a second
    record ([World]).  A method is a function from a sample and a world to an
    outcome (a returned value or a raised exception), the sample and the
    world it leaves behind: an exception does not roll back what the method
    did before raising.  [logger.debug] lines are not modelled; the other
    log levels are recorded in the trace of the world. *)

From stdpp Require Import base decidable countable strings pretty list gmap.
From Stdlib Require Import ZArith Ascii String Lia.

Open Scope string_scope.
Open Scope list_scope.
Open Scope stdpp_scope.
Open Scope Z_scope.

(** ** Python strings and [os.path] *)

Module PyStr.

Definition slash : ascii := "/"%char.
Definition dot : ascii := "."%char.

Fixpoint contains (c : ascii) (p : string) : bool :=
  match p with
  | EmptyString => false
  | String c' p' => if Ascii.eqb c c' then true else contains c p'
  end.

Definition startswith_slash (p : string) : bool :=
  match p with
  | String c _ => Ascii.eqb c slash
  | EmptyString => false
  end.

Fixpoint endswith_slash (p : string) : bool :=
  match p with
  | EmptyString => false
  | String c EmptyString => Ascii.eqb c slash
  | String _ p' => endswith_slash p'
  end.

(** [os.path.basename]: what follows the last slash. *)
Fixpoint basename (p : string) : string :=
  match p with
  | EmptyString => EmptyString
  | String _ p' => if contains slash p then basename p' else p
  end.

(** [os.path.join] of two components. *)
Definition join (a b : string) : string :=
  if startswith_slash b then b
  else if String.eqb a "" || endswith_slash a then a +:+ b
  else a +:+ "/" +:+ b.

(** Cuts [b] at its last dot: the text before it and the text from it on. *)
Fixpoint rsplit_dot (b : string) : option (string * string) :=
  match b with
  | EmptyString => None
  | String c b' =>
      match rsplit_dot b' with
      | Some (pre, ext) => Some (String c pre, ext)
      | None => if Ascii.eqb c dot then Some (EmptyString, b) else None
      end
  end.

Fixpoint all_dots (p : string) : bool :=
  match p with
  | EmptyString => true
  | String c p' => Ascii.eqb c dot && all_dots p'
  end.

(** [os.path.splitext(p)[1]]: the extension with its dot, taken from the
    last path component, empty when that component has no dot or only
    leading dots before its last one. *)
Definition splitext_ext (p : string) : string :=
  match rsplit_dot (basename p) with
  | Some (pre, ext) => if all_dots pre then "" else ext
  | None => ""
  end.

(** The slice [s[1:]]. *)
Definition tail (s : string) : string :=
  match s with
  | EmptyString => EmptyString
  | String _ s' => s'
  end.

(** [os.path.dirname], for paths without a doubled or trailing slash. *)
Fixpoint dirname_aux (p : string) : string :=
  match p with
  | EmptyString => EmptyString
  | String c p' => if contains slash p' then String c (dirname_aux p') else ""
  end.

Definition dirname (p : string) : string :=
  let d := dirname_aux p in
  if String.eqb d "" && startswith_slash p then "/" else d.

End PyStr.


(** ** Python's [re.sub] with the replacement [r'\1']

    The job hash pattern is a regular expression with one capturing group.
    The patterns modelled have the shape [before(group)after], each part
    built from literals, character classes, alternation and greedy
    repetition, and are matched by backtracking, as [re] does. *)

Module PyRe.

Inductive re : Type :=
| Eps
| Chr (c : ascii)
| AnyChar
| NoneOf (cs : list ascii)
| OneOf (cs : list ascii)
| Cat (r1 r2 : re)
| Alt (r1 r2 : re)
| Star (r : re).

Definition Plus (r : re) : re := Cat r (Star r).

Fixpoint lit (s : string) : re :=
  match s with
  | EmptyString => Eps
  | String c s' => Cat (Chr c) (lit s')
  end.

Record pattern : Type := Pattern {
  pat_before : re;
  pat_group : re;
  pat_after : re
}.

Definition newline : ascii := "010"%char.

Definition one_char {A} (ok : ascii → bool) (s : string)
    (k : string → option A) : option A :=
  match s with
  | String c s' => if ok c then k s' else None
  | EmptyString => None
  end.

(** [matches r s k]: match [r] at the start of [s] and hand what is left
    to [k]; when [k] refuses, backtrack. A repetition takes as many rounds
    as it can, and a round that consumes nothing ends it. *)
Fixpoint matches {A} (r : re) (s : string) (k : string → option A) : option A :=
  match r with
  | Eps => k s
  | Chr c => one_char (Ascii.eqb c) s k
  | AnyChar => one_char (λ c, negb (Ascii.eqb c newline)) s k
  | NoneOf cs => one_char (λ c, negb (existsb (Ascii.eqb c) cs)) s k
  | OneOf cs => one_char (λ c, existsb (Ascii.eqb c) cs) s k
  | Cat r1 r2 => matches r1 s (λ s', matches r2 s' k)
  | Alt r1 r2 =>
      match matches r1 s k with
      | Some x => Some x
      | None => matches r2 s k
      end
  | Star r1 =>
      (fix rounds (n : nat) (s : string) : option A :=
         match n with
         | O => k s
         | S n' =>
             match matches r1 s (λ s',
                     if (String.length s' <? String.length s)%nat
                     then rounds n' s' else None) with
             | Some x => Some x
             | None => k s
             end
         end) (String.length s) s
  end.

(** The first [n] characters of [s]. *)
Fixpoint take (n : nat) (s : string) : string :=
  match n, s with
  | S n', String c s' => String c (take n' s')
  | _, _ => EmptyString
  end.

(** A match of the pattern at the start of [s]: the text of group 1 and
    the text after the match. *)
Definition match_at (p : pattern) (s : string) : option (string * string) :=
  matches (pat_before p) s (λ s1,
    matches (pat_group p) s1 (λ s2,
      matches (pat_after p) s2 (λ s3,
        Some (take (String.length s1 - String.length s2) s1, s3)))).


(** The scan of [re.sub]: [skip] characters of [s] belong to the match
    just replaced; after them the pattern is tried at every position, a
    match is replaced by its group 1 and an unmatched character is
    copied. *)
Fixpoint sub_scan (p : pattern) (skip : nat) (s : string) : string :=
  match skip with
  | S n =>
      match s with
      | String _ s' => sub_scan p n s'
      | EmptyString => EmptyString
      end
  | O =>
      match match_at p s with
      | Some (g, rest) =>
          match s with
          | EmptyString => g
          | String c s' =>
              match (String.length s - String.length rest)%nat with
              | O => g +:+ String c (sub_scan p O s')
              | S n => g +:+ sub_scan p n s'
              end
          end
      | None =>
          match s with
          | EmptyString => EmptyString
          | String c s' => String c (sub_scan p O s')
          end
      end
  end.

(** [re.sub(p, r'\1', s)]. *)
Definition sub_group1 (p : pattern) (s : string) : string := sub_scan p O s.

End PyRe.

(** ** Values, exceptions and the outside world *)

(** Modelled from the spec: the [Result] enumeration, which [sample.py]
    imports from [peekaboo.ruleset]. The spec gives the severities in
    increasing order, [unchecked] the lowest; members compare by value. *)
Inductive Result : Type :=
| unchecked | clean | suspicious | malicious | failed.

Definition Result_value (r : Result) : Z :=
  match r with
  | unchecked => 0 | clean => 1 | suspicious => 2 | malicious => 3 | failed => 4
  end.

Definition Result_name (r : Result) : string :=
  match r with
  | unchecked => "unchecked" | clean => "clean" | suspicious => "suspicious"
  | malicious => "malicious" | failed => "failed"
  end.

(** [a >= b] on members of the enumeration. *)
Definition Result_ge (a b : Result) : bool := Result_value b <=? Result_value a.

(** Modelled from the spec: a rule verdict of [peekaboo.ruleset] carries a
    severity and a reason; the sample only reads them. *)
Record RuleResult : Type := mkRuleResult {
  result : Result;
  reason : string
}.

(** What [os.stat] returns, reduced to the field the sample reads. *)
Record stat_result : Type := mkStat { st_size : Z }.

(** Hashable Python values. *)
Inductive atom : Type :=
| ANone
| AStr (s : string)
| ABool (b : bool)
| AStat (st : stat_result).

Global Instance Result_eq_dec : EqDecision Result.
Proof. solve_decision. Defined.
Global Instance stat_result_eq_dec : EqDecision stat_result.
Proof. solve_decision. Defined.
Global Instance atom_eq_dec : EqDecision atom.
Proof. solve_decision. Defined.

Definition atom_encode (a : atom) : unit + string + bool + Z :=
  match a with
  | ANone => inl (inl (inl ()))
  | AStr s => inl (inl (inr s))
  | ABool b => inl (inr b)
  | AStat st => inr (st_size st)
  end.

Definition atom_decode (x : unit + string + bool + Z) : atom :=
  match x with
  | inl (inl (inl _)) => ANone
  | inl (inl (inr s)) => AStr s
  | inl (inr b) => ABool b
  | inr z => AStat (mkStat z)
  end.

Global Program Instance atom_countable : Countable atom :=
  inj_countable' atom_encode atom_decode _.
Next Obligation. by intros [|s|b|[z]]. Qed.

(** The values the attribute dictionary holds: a hashable value, the list of
    rule verdicts, a set of hashable values. *)
Inductive value : Type :=
| VAtom (a : atom)
| VRules (l : list RuleResult)
| VMimes (m : gset atom).

Definition VNone : value := VAtom ANone.
Definition VStr (s : string) : value := VAtom (AStr s).

Inductive exn : Type :=
| KeyError (msg : string)
| ValueError (msg : string)
| TypeError
| AttributeError
| IOError (errno : Z)
| OSError (errno : Z).

Definition ENOENT : Z := 2.
Definition EEXIST : Z := 17.
Definition ENOTDIR : Z := 20.
Definition EISDIR : Z := 21.
Definition EPIPE : Z := 32.
Definition ELOOP : Z := 40.

Inductive outcome (A : Type) : Type :=
| Ok (a : A)
| Raise (e : exn).
Arguments Ok {A} a.
Arguments Raise {A} e.

Inductive node : Type :=
| File (content : string)
| Dir
| Symlink (target : string).

Inductive level : Type := Info | Warning.

(** What the sample asks of the outside, in the order it asks. *)
Inductive event : Type :=
| EvRead (path : string)
| EvStat (path : string)
| EvMagic (path : string)
| EvGuessName (name : value)
| EvMacros (path : string)
| EvClock
| EvJobHash (job_hash : string)
| EvMkdir (path : string)
| EvSymlink (src dst : string)
| EvSend (msg : string) (failure : option Z)
| EvLog (lvl : level) (msg : string)
| EvLogException (e : exn).

Record World : Type := mkWorld {
  w_fs : gmap string node;
  w_now : string;                   (* the clock, as analyses_time formats it *)
  w_magic : string → option string; (* guess_mime_type_from_file_contents *)
  w_macros : string → bool;         (* has_office_macros *)
  w_random : nat → string;          (* the random names still to be drawn *)
  w_drawn : nat;
  w_send_errno : nat → option Z;    (* how the socket answers its k-th send *)
  w_sends : nat;
  w_trace : list event
}.

Definition set_w_fs (fs : gmap string node) (w : World) : World :=
  mkWorld fs (w_now w) (w_magic w) (w_macros w) (w_random w) (w_drawn w)
    (w_send_errno w) (w_sends w) (w_trace w).

Definition set_w_drawn (n : nat) (w : World) : World :=
  mkWorld (w_fs w) (w_now w) (w_magic w) (w_macros w) (w_random w) n
    (w_send_errno w) (w_sends w) (w_trace w).

Definition set_w_sends (n : nat) (w : World) : World :=
  mkWorld (w_fs w) (w_now w) (w_magic w) (w_macros w) (w_random w) (w_drawn w)
    (w_send_errno w) n (w_trace w).

Definition record (e : event) (w : World) : World :=
  mkWorld (w_fs w) (w_now w) (w_magic w) (w_macros w) (w_random w) (w_drawn w)
    (w_send_errno w) (w_sends w) (w_trace w ++ [e]).

(** Pure functions that [sample.py] imports: from [hashlib], from
    [peekaboo.toolbox.files], and the conversions of objects to text. *)
Record Library : Type := mkLibrary {
  sha256_hexdigest : string → string;
  guess_mime_type_from_filename : value → option string;
  str_rule_result : RuleResult → string;   (* RuleResult.__str__ *)
  str_object : value → string              (* str() of a stat result, a list, a set *)
}.

(** ** The sample *)

(** The private fields [__path], [__wd], [__filename] and so on of the class
    carry the prefix [s_] here; [initialized] is public and keeps its name.
    [__send_message] is [send_message] below. *)
Record Sample : Type := mkSample {
  s_path : string;
  s_wd : option string;
  s_filename : string;
  s_submit_path : option string;
  s_cuckoo_job_id : Z;
  s_result : Result;
  s_reason : option string;
  s_report : list string;
  s_socket : option nat;
  s_attributes : gmap string value;
  s_base_dir : string;
  s_job_hash_regex : PyRe.pattern;
  s_keep_mail_data : bool;
  initialized : bool
}.

Definition set_wd (x : option string) (s : Sample) : Sample :=
  mkSample (s_path s) x (s_filename s) (s_submit_path s) (s_cuckoo_job_id s)
    (s_result s) (s_reason s) (s_report s) (s_socket s) (s_attributes s)
    (s_base_dir s) (s_job_hash_regex s) (s_keep_mail_data s) (initialized s).

Definition set_submit_path (x : option string) (s : Sample) : Sample :=
  mkSample (s_path s) (s_wd s) (s_filename s) x (s_cuckoo_job_id s)
    (s_result s) (s_reason s) (s_report s) (s_socket s) (s_attributes s)
    (s_base_dir s) (s_job_hash_regex s) (s_keep_mail_data s) (initialized s).

Definition set_result (x : Result) (s : Sample) : Sample :=
  mkSample (s_path s) (s_wd s) (s_filename s) (s_submit_path s) (s_cuckoo_job_id s)
    x (s_reason s) (s_report s) (s_socket s) (s_attributes s)
    (s_base_dir s) (s_job_hash_regex s) (s_keep_mail_data s) (initialized s).

Definition set_reason (x : option string) (s : Sample) : Sample :=
  mkSample (s_path s) (s_wd s) (s_filename s) (s_submit_path s) (s_cuckoo_job_id s)
    (s_result s) x (s_report s) (s_socket s) (s_attributes s)
    (s_base_dir s) (s_job_hash_regex s) (s_keep_mail_data s) (initialized s).

Definition set_report (x : list string) (s : Sample) : Sample :=
  mkSample (s_path s) (s_wd s) (s_filename s) (s_submit_path s) (s_cuckoo_job_id s)
    (s_result s) (s_reason s) x (s_socket s) (s_attributes s)
    (s_base_dir s) (s_job_hash_regex s) (s_keep_mail_data s) (initialized s).

Definition set_attributes (x : gmap string value) (s : Sample) : Sample :=
  mkSample (s_path s) (s_wd s) (s_filename s) (s_submit_path s) (s_cuckoo_job_id s)
    (s_result s) (s_reason s) (s_report s) (s_socket s) x
    (s_base_dir s) (s_job_hash_regex s) (s_keep_mail_data s) (initialized s).

Definition set_initialized (x : bool) (s : Sample) : Sample :=
  mkSample (s_path s) (s_wd s) (s_filename s) (s_submit_path s) (s_cuckoo_job_id s)
    (s_result s) (s_reason s) (s_report s) (s_socket s) (s_attributes s)
    (s_base_dir s) (s_job_hash_regex s) (s_keep_mail_data s) x.

(** ** Methods as state transformers that may raise *)

Definition M (A : Type) : Type := Sample → World → outcome A * Sample * World.

Definition ret {A} (a : A) : M A := λ s w, (Ok a, s, w).

Definition raise {A} (e : exn) : M A := λ s w, (Raise e, s, w).

Definition bind {A B} (c : M A) (k : A → M B) : M B :=
  λ s w,
    match c s w with
    | (Ok a, s', w') => k a s' w'
    | (Raise e, s', w') => (Raise e, s', w')
    end.

Notation "x <- c ;; k" := (bind c (λ x, k))
  (at level 100, c at next level, right associativity).
Notation "c ;;; k" := (bind c (λ _, k))
  (at level 100, right associativity).

Definition gets {A} (f : Sample → A) : M A := λ s w, (Ok (f s), s, w).

Definition modify (f : Sample → Sample) : M unit := λ s w, (Ok tt, f s, w).

(** [try: c  except: handler]: the handler says which exceptions it
    catches. *)
Definition try_except {A} (c : M A) (handler : exn → option (M A)) : M A :=
  λ s w,
    match c s w with
    | (Raise e, s', w') =>
        match handler e with
        | Some h => h s' w'
        | None => (Raise e, s', w')
        end
    | r => r
    end.

Fixpoint for_each {A} (l : list A) (body : A → M unit) : M unit :=
  match l with
  | [] => ret tt
  | x :: l' => body x ;;; for_each l' body
  end.

(** *** What the methods ask of the operating system and the libraries *)

Definition io (f : World → World) : M unit := λ s w, (Ok tt, s, f w).

Definition ask {A} (f : World → A) : M A := λ s w, (Ok (f w), s, w).

(** Follows symbolic links, at most [n] of them. *)
Fixpoint follow (n : nat) (fs : gmap string node) (p : string) : Z + node :=
  match fs !! p with
  | None => inl ENOENT
  | Some (Symlink t) =>
      match n with
      | O => inl ELOOP
      | S n' => follow n' fs t
      end
  | Some nd => inr nd
  end.

Definition MAXSYMLINKS : nat := 40.

(** [open(path, 'rb').read()]. *)
Definition open_read (path : string) : M string :=
  io (record (EvRead path)) ;;;
  fs <- ask w_fs ;;
  match follow MAXSYMLINKS fs path with
  | inr (File content) => ret content
  | inr Dir => raise (IOError EISDIR)
  | inr (Symlink _) => raise (IOError ELOOP)
  | inl errno => raise (IOError errno)
  end.

Definition os_stat (path : string) : M stat_result :=
  io (record (EvStat path)) ;;;
  fs <- ask w_fs ;;
  match follow MAXSYMLINKS fs path with
  | inr (File content) => ret (mkStat (Z.of_nat (String.length content)))
  | inr Dir => ret (mkStat 4096)
  | inr (Symlink _) => raise (OSError ELOOP)
  | inl errno => raise (OSError errno)
  end.

(** Creating a directory entry: the name must be free and its parent a
    directory. *)
Definition create_entry (path : string) (nd : node) : M unit :=
  fs <- ask w_fs ;;
  match fs !! path with
  | Some _ => raise (OSError EEXIST)
  | None =>
      match follow MAXSYMLINKS fs (PyStr.dirname path) with
      | inr Dir => io (set_w_fs (<[path := nd]> fs))
      | inr _ => raise (OSError ENOTDIR)
      | inl errno => raise (OSError errno)
      end
  end.

Definition os_mkdir (path : string) : M unit :=
  io (record (EvMkdir path)) ;;; create_entry path Dir.

Definition os_symlink (src dst : string) : M unit :=
  io (record (EvSymlink src dst)) ;;; create_entry dst (Symlink src).

Definition draw : M string :=
  name <- ask (λ w, w_random w (w_drawn w)) ;;
  io (λ w, set_w_drawn (S (w_drawn w)) w) ;;;
  ret name.

(** Modelled from the spec: [next_job_hash] of [peekaboo.toolbox.sampletools],
    which generates a fresh hash. *)
Definition next_job_hash : M string :=
  job_hash <- draw ;;
  io (record (EvJobHash job_hash)) ;;;
  ret job_hash.

Definition TMP_MAX : nat := 100 * 100.

(** [tempfile.mkdtemp(prefix, dir)]: random names are tried until one can be
    created; a name that exists already is skipped. *)
Fixpoint mkdtemp_try (fuel : nat) (prefix dir : string) : M string :=
  match fuel with
  | O => raise (IOError EEXIST)
  | S fuel' =>
      name <- draw ;;
      let file := PyStr.join dir (prefix +:+ name) in
      try_except (os_mkdir file ;;; ret file)
        (λ e, match e with
              | OSError errno =>
                  if errno =? EEXIST then Some (mkdtemp_try fuel' prefix dir)
                  else None
              | _ => None
              end)
  end.

Definition tempfile_mkdtemp (prefix dir : string) : M string :=
  mkdtemp_try TMP_MAX prefix dir.

(** [datetime.now().strftime("%Y%m%dT%H%M%S")]. *)
Definition datetime_now : M string :=
  io (record EvClock) ;;; ask w_now.

Definition guess_mime_type_from_file_contents (path : string) : M (option string) :=
  io (record (EvMagic path)) ;;; ask (λ w, w_magic w path).

Definition has_office_macros (path : string) : M bool :=
  io (record (EvMacros path)) ;;; ask (λ w, w_macros w path).

(** [socket.send(msg)]; a failure of the socket is an [IOError]. *)
Definition socket_send (msg : string) : M unit :=
  answer <- ask (λ w, w_send_errno w (w_sends w)) ;;
  io (λ w, record (EvSend msg answer) (set_w_sends (S (w_sends w)) w)) ;;;
  match answer with
  | None => ret tt
  | Some errno => raise (IOError errno)
  end.

Definition logger (lvl : level) (msg : string) : M unit :=
  io (record (EvLog lvl msg)).

Definition logger_exception (e : exn) : M unit :=
  io (record (EvLogException e)).

(** *** Python's view of the values *)

Definition dquote : string := String "034"%char EmptyString.
Definition nl : string := String "010"%char EmptyString.

(** The truth value of a value, as [if v:] takes it. *)
Definition truthy (v : value) : bool :=
  match v with
  | VAtom ANone => false
  | VAtom (AStr s) => negb (String.eqb s "")
  | VAtom (ABool b) => b
  | VAtom (AStat _) => true
  | VRules l => match l with [] => false | _ => true end
  | VMimes m => negb (bool_decide (m = ∅))
  end.

Definition is_None (v : value) : bool :=
  match v with
  | VAtom ANone => true
  | _ => false
  end.

(** [v == s] for a string literal [s]. *)
Definition eq_str (v : value) (s : string) : bool :=
  match v with
  | VAtom (AStr s') => String.eqb s' s
  | _ => false
  end.

(** [v in l] for a list [l] of string literals. *)
Definition in_strs (v : value) (l : list string) : bool :=
  existsb (eq_str v) l.

(** [m.add(v)] and [set([v])]: lists and sets cannot be hashed. *)
Definition set_add (v : value) (m : gset atom) : M (gset atom) :=
  match v with
  | VAtom a => ret ({[a]} ∪ m)
  | VRules _ | VMimes _ => raise TypeError
  end.

(** [l.append(res)]: only a list has the method. *)
Definition list_append (v : value) (res : RuleResult) : M value :=
  match v with
  | VRules l => ret (VRules (l ++ [res]))
  | _ => raise AttributeError
  end.

(** What a [for] loop draws from a value: rule verdicts from the list of
    verdicts, other objects (given by their [str]) from a string, from a
    stat result (its number) or from a set; [None] and booleans cannot be
    iterated. *)
Inductive item : Type :=
| ItRule (r : RuleResult)
| ItOther (str : string).

Definition chars (s : string) : list string :=
  (λ c, String c EmptyString) <$> list_ascii_of_string s.

Section Methods.

Context (lib : Library).

(** [str(v)], as the [%s] of a format string takes it. *)
Definition py_str (v : value) : string :=
  match v with
  | VAtom ANone => "None"
  | VAtom (AStr s) => s
  | VAtom (ABool b) => if b then "True" else "False"
  | _ => str_object lib v
  end.

Definition iterate (v : value) : M (list item) :=
  match v with
  | VRules l => ret (ItRule <$> l)
  | VAtom (AStr s) => ret (ItOther <$> chars s)
  | VAtom (AStat st) => ret [ItOther (pretty (st_size st))]
  | VMimes m => ret ((λ a, ItOther (py_str (VAtom a))) <$> elements m)
  | VAtom ANone | VAtom (ABool _) => raise TypeError
  end.

(** [item.result] and [item.reason]. *)
Definition item_result (it : item) : M Result :=
  match it with
  | ItRule r => ret (result r)
  | ItOther _ => raise AttributeError
  end.

Definition item_reason (it : item) : M string :=
  match it with
  | ItRule r => ret (reason r)
  | ItOther _ => raise AttributeError
  end.

Definition item_str (it : item) : string :=
  match it with
  | ItRule r => str_rule_result lib r
  | ItOther str => str
  end.

(** [os.path.splitext(filename)[1][1:]]: only a string can be split. *)
Definition splitext_1_1 (filename : value) : M value :=
  match filename with
  | VAtom (AStr s) => ret (VStr (PyStr.tail (PyStr.splitext_ext s)))
  | _ => raise AttributeError
  end.

(** [v.st_size]. *)
Definition getattr_st_size (v : value) : M Z :=
  match v with
  | VAtom (AStat st) => ret (st_size st)
  | _ => raise AttributeError
  end.

(** *** The attribute store *)

Definition has_attr (key : string) (s : Sample) : bool :=
  match s_attributes s !! key with
  | Some _ => true
  | None => false
  end.

(** [self.__attributes[key]]. *)
Definition attributes_getitem (key : string) : M value :=
  attrs <- gets s_attributes ;;
  match attrs !! key with
  | Some v => ret v
  | None => raise (KeyError key)
  end.

Definition get_attr (key : string) : M value :=
  has <- gets (has_attr key) ;;
  if has then attributes_getitem key
  else raise (KeyError ("Attribute for key '" +:+ key +:+ "' not found.")).

Definition set_attr (key : string) (val : value) (override : bool) : M unit :=
  has <- gets (has_attr key) ;;
  if has && negb override
  then raise (KeyError ("Key '" +:+ key +:+ "' already exists."))
  else modify (λ s, set_attributes (<[key := val]> (s_attributes s)) s).

Definition remove_attr (key : string) : M unit :=
  has <- gets (has_attr key) ;;
  (if has then modify (λ s, set_attributes (delete key (s_attributes s)) s)
   else ret tt) ;;;
  raise (ValueError ("No attribute named " +:+ dquote +:+ key +:+ dquote +:+ " found.")).

(** *** Construction *)

(** The fields as [__init__] sets them before it reads the meta
    information. The references to Cuckoo and to the connection map are
    left out. *)
Definition blank_sample (file_path : string) (socket : option nat)
    (base_dir : string) (job_hash_regex : PyRe.pattern)
    (keep_mail_data : bool) : Sample :=
  {| s_path := file_path;
     s_wd := None;
     s_filename := PyStr.basename file_path;
     s_submit_path := None;
     s_cuckoo_job_id := -1;
     s_result := unchecked;
     s_reason := None;
     s_report := [];
     s_socket := socket;
     s_attributes := ∅;
     s_base_dir := base_dir;
     s_job_hash_regex := job_hash_regex;
     s_keep_mail_data := keep_mail_data;
     initialized := false |}.

(** The loop of [__init__] over the meta information. *)
Definition read_metainfo (metainfo : list (string * value)) : M unit :=
  for_each metainfo (λ '(field, v),
    if negb (is_None v) then set_attr ("meta_info_" +:+ field) v true
    else ret tt).

Definition new_sample (file_path : string) (metainfo : list (string * value))
    (socket : option nat) (base_dir : string) (job_hash_regex : PyRe.pattern)
    (keep_mail_data : bool) (w : World) : outcome unit * Sample * World :=
  read_metainfo metainfo
    (blank_sample file_path socket base_dir job_hash_regex keep_mail_data) w.

(** *** The report channel *)

Definition send_message (msg : string) : M unit :=
  socket <- gets s_socket ;;
  match socket with
  | None => ret tt
  | Some _ =>
      try_except (socket_send msg)
        (λ e, match e with
              | IOError errno =>
                  Some (if errno =? EPIPE
                        then logger Warning
                               ("Unable send message " +:+ dquote +:+ msg
                                +:+ dquote +:+ ". Broken pipe.")
                        else logger_exception e)
              | _ => None
              end)
  end.

(** [self.__report.append(message)]. *)
Definition report_append (message : string) : M unit :=
  modify (λ s, set_report (s_report s ++ [message]) s).

(** *** Memoised properties *)

Definition sha256sum : M value :=
  has <- gets (has_attr "sha256sum") ;;
  if negb has then
    path <- gets s_path ;;
    content <- open_read path ;;
    let checksum := VStr (sha256_hexdigest lib content) in
    set_attr "sha256sum" checksum true ;;;
    ret checksum
  else get_attr "sha256sum".

Definition file_extension : M value :=
  has <- gets (has_attr "file_extension") ;;
  if has then get_attr "file_extension"
  else
    filename <- gets (λ s, VStr (s_filename s)) ;;
    declared <- gets (has_attr "meta_info_name_declared") ;;
    filename <- (if declared then get_attr "meta_info_name_declared"
                 else ret filename) ;;
    file_ext <- splitext_1_1 filename ;;
    set_attr "file_extension" file_ext true ;;;
    ret file_ext.

Definition leave_alone_types_p7s : list string :=
  [ "application/pkcs7-signature";
    "application/x-pkcs7-signature";
    "application/pkcs7-mime";
    "application/x-pkcs7-mime" ].

(** [if x is not None: mime_types.add(x)] for a sniffed type. *)
Definition add_sniffed (x : option string) (m : gset atom) : gset atom :=
  match x with
  | Some mt => {[AStr mt]} ∪ m
  | None => m
  end.

Definition mimetypes : M value :=
  has <- gets (has_attr "mimetypes") ;;
  if has then get_attr "mimetypes"
  else
    let mime_types : gset atom := ∅ in
    declared <- gets (has_attr "meta_info_type_declared") ;;
    declared_mt <- (if declared then get_attr "meta_info_type_declared"
                    else ret VNone) ;;
    mime_types <- (if declared && negb (is_None declared_mt)
                   then set_add declared_mt mime_types
                   else ret mime_types) ;;
    declared_filename <- gets (λ s, VStr (s_filename s)) ;;
    named <- gets (has_attr "meta_info_name_declared") ;;
    declared_filename <- (if named then get_attr "meta_info_name_declared"
                          else ret declared_filename) ;;
    if eq_str declared_filename "smime.p7s"
       && in_strs declared_mt leave_alone_types_p7s
    then
      logger Info "S/MIME signature detected. Using declared MIME type over detected ones." ;;;
      mime_types <- set_add declared_mt ∅ ;;
      set_attr "mimetypes" (VMimes mime_types) true ;;;
      ret (VMimes mime_types)
    else
      path <- gets s_path ;;
      content_based_mime_type <- guess_mime_type_from_file_contents path ;;
      let mime_types := add_sniffed content_based_mime_type mime_types in
      io (record (EvGuessName declared_filename)) ;;;
      let name_based_mime_type := guess_mime_type_from_filename lib declared_filename in
      let mime_types := add_sniffed name_based_mime_type mime_types in
      set_attr "mimetypes" (VMimes mime_types) true ;;;
      ret (VMimes mime_types).

Definition office_macros : M value :=
  has <- gets (has_attr "office_macros") ;;
  (if negb has then
     path <- gets s_path ;;
     macros <- has_office_macros path ;;
     set_attr "office_macros" (VAtom (ABool macros)) true
   else ret tt) ;;;
  get_attr "office_macros".

Definition file_size : M Z :=
  has <- gets (has_attr "file_stat") ;;
  (if negb has then
     path <- gets s_path ;;
     st <- os_stat path ;;
     set_attr "file_stat" (VAtom (AStat st)) true
   else ret tt) ;;;
  st <- get_attr "file_stat" ;;
  getattr_st_size st.

Definition analyses_time : M value :=
  has <- gets (has_attr "analyses_time") ;;
  if negb has then
    timestamp <- datetime_now ;;
    set_attr "analyses_time" (VStr timestamp) true ;;;
    ret (VStr timestamp)
  else get_attr "analyses_time".

(** *** Job hash and initialisation *)

Definition get_job_hash : M string :=
  path <- gets s_path ;;
  regex <- gets s_job_hash_regex ;;
  let job_hash := PyRe.sub_group1 regex path in
  if String.eqb job_hash path then
    job_hash <- next_job_hash ;;
    base_dir <- gets s_base_dir ;;
    os_mkdir (PyStr.join base_dir job_hash) ;;;
    ret job_hash
  else ret job_hash.

Definition init : M unit :=
  done <- gets initialized ;;
  if done then ret tt
  else
    path <- gets s_path ;;
    modify (set_submit_path (Some path)) ;;;
    file_ext <- file_extension ;;
    (if truthy file_ext then
       prefix <- get_job_hash ;;
       base_dir <- gets s_base_dir ;;
       wd <- tempfile_mkdtemp prefix base_dir ;;
       modify (set_wd (Some wd)) ;;;
       sha <- sha256sum ;;
       let submit_path := PyStr.join wd (py_str sha +:+ "." +:+ py_str file_ext) in
       modify (set_submit_path (Some submit_path)) ;;;
       os_symlink path submit_path
     else ret tt) ;;;
    modify (set_initialized true) ;;;
    filename <- gets s_filename ;;
    sha <- sha256sum ;;
    let message := "Datei " +:+ dquote +:+ filename +:+ dquote +:+ " "
                   +:+ py_str sha +:+ " wird analysiert" +:+ nl in
    report_append message ;;;
    send_message message ;;;
    named <- gets (has_attr "meta_info_name_declared") ;;
    (if named then
       name <- get_attr "meta_info_name_declared" ;;
       report_append ("meta info: name_declared: " +:+ py_str name +:+ nl)
     else ret tt) ;;;
    typed <- gets (has_attr "meta_info_type_declared") ;;
    (if typed then
       type <- get_attr "meta_info_type_declared" ;;
       report_append ("meta info: type_declared: " +:+ py_str type +:+ nl)
     else ret tt).

(** *** Verdicts and the report *)

Definition add_rule_result (res : RuleResult) : M unit :=
  has <- gets (has_attr "rule_results") ;;
  rule_results <- (if has then get_attr "rule_results" else ret (VRules [])) ;;
  rule_results <- list_append rule_results res ;;
  set_attr "rule_results" rule_results true.

Definition determine_result : M unit :=
  rule_results <- get_attr "rule_results" ;;
  items <- iterate rule_results ;;
  for_each items (λ rule_result,
    current <- gets s_result ;;
    verdict <- item_result rule_result ;;
    if Result_ge verdict current then
      modify (set_result verdict) ;;;
      why <- item_reason rule_result ;;
      modify (set_reason (Some why))
    else ret tt).

Definition report : M unit :=
  determine_result ;;;
  rule_results <- get_attr "rule_results" ;;
  items <- iterate rule_results ;;
  for_each items (λ rule_result,
    filename <- gets s_filename ;;
    let message := "Datei " +:+ dquote +:+ filename +:+ dquote +:+ ": "
                   +:+ item_str rule_result +:+ nl in
    report_append message ;;;
    send_message message) ;;;
  filename <- gets s_filename ;;
  verdict <- gets s_result ;;
  let message := "Die Datei " +:+ dquote +:+ filename +:+ dquote
                 +:+ " wurde als " +:+ dquote +:+ Result_name verdict
                 +:+ dquote +:+ " eingestuft" +:+ nl +:+ nl in
  report_append message ;;;
  send_message message.

Definition get_peekaboo_report (s : Sample) : string :=
  foldr String.append "" (s_report s).

End Methods.

(** ** Definitions used to state the properties *)

(** The declared name of a sample or, absent a declaration, its raw file
    name. *)
Definition declared_name (s : Sample) : value :=
  match s_attributes s !! "meta_info_name_declared" with
  | Some v => v
  | None => VStr (s_filename s)
  end.

(** The declared type of a sample, [None] when there is none. *)
Definition declared_type (s : Sample) : value :=
  match s_attributes s !! "meta_info_type_declared" with
  | Some v => v
  | None => VNone
  end.

(** The S/MIME signature exception. *)
Definition smime_exception (s : Sample) : bool :=
  eq_str (declared_name s) "smime.p7s"
  && in_strs (declared_type s) leave_alone_types_p7s.

(** The contribution of the declared type and of a sniffer to the set. *)
Definition declared_set (s : Sample) : gset atom :=
  match declared_type s with
  | VAtom ANone => ∅
  | VAtom a => {[a]}
  | _ => ∅
  end.

Definition sniffed_set (x : option string) : gset atom :=
  match x with
  | Some mt => {[AStr mt]}
  | None => ∅
  end.

(** The key under which each derived property is cached, and the property
    read through its accessor; the file size is the one that is a number. *)
Inductive derived_property : Type :=
| Sha256sum | FileExtension | Mimetypes | FileSize | AnalysesTime | OfficeMacros.

Definition access (lib : Library) (p : derived_property) : M (value + Z) :=
  match p with
  | Sha256sum => v <- sha256sum lib ;; ret (inl v)
  | FileExtension => v <- file_extension ;; ret (inl v)
  | Mimetypes => v <- mimetypes lib ;; ret (inl v)
  | FileSize => n <- file_size ;; ret (inr n)
  | AnalysesTime => v <- analyses_time ;; ret (inl v)
  | OfficeMacros => v <- office_macros ;; ret (inl v)
  end.



(** Whether the declared type can be a member of a set. *)
Definition hashable (v : value) : bool :=
  match v with
  | VAtom _ => true
  | _ => false
  end.

(** The aggregation as the specification words it: a fold over the
    verdicts in order, a verdict replacing the held pair when its severity
    is greater than or equal to the held one. *)
Definition aggregate_step (held : Result * option string) (v : RuleResult)
    : Result * option string :=
  if Result_ge (result v) (held.1) then (result v, Some (reason v)) else held.

Definition aggregate (held : Result * option string) (vs : list RuleResult)
    : Result * option string :=
  foldl aggregate_step held vs.

(** The lines [report] emits for the verdicts and for the final result. *)
Definition verdict_line (lib : Library) (filename : string) (v : RuleResult) : string :=
  "Datei " +:+ dquote +:+ filename +:+ dquote +:+ ": "
  +:+ str_rule_result lib v +:+ nl.

Definition final_line (filename : string) (r : Result) : string :=
  "Die Datei " +:+ dquote +:+ filename +:+ dquote +:+ " wurde als "
  +:+ dquote +:+ Result_name r +:+ dquote +:+ " eingestuft" +:+ nl +:+ nl.

(** Whether a directory entry can be created at [path]. *)
Definition creatable (fs : gmap string node) (path : string) : bool :=
  match fs !! path with
  | Some _ => false
  | None =>
      match follow MAXSYMLINKS fs (PyStr.dirname path) with
      | inr Dir => true
      | _ => false
      end
  end.

(** ** Examples: a mail gateway setup *)

Module Demo.

(** The pattern [/var/lib/amavis/tmp/([^/]+)/parts.*]. *)
Definition amavis : PyRe.pattern :=
  PyRe.Pattern (PyRe.lit "/var/lib/amavis/tmp/")
    (PyRe.Plus (PyRe.NoneOf ["/"%char]))
    (PyRe.Cat (PyRe.lit "/parts") (PyRe.Star PyRe.AnyChar)).

Definition lib : Library :=
  {| sha256_hexdigest := λ content, "sha256:" +:+ content;
     guess_mime_type_from_filename := λ name,
       if eq_str name "smime.p7s" then Some "application/pkcs7-signature"
       else None;
     str_rule_result := λ r, Result_name (result r) +:+ " - " +:+ reason r;
     str_object := λ _, "<object>" |}.

Definition fs : gmap string node :=
  {[ "/" := Dir; "/tmp" := Dir; "/tmp/p001" := File "hello";
     "/tmp/smime.p7s" := File "0" ]}.

(** A world whose socket fails every send with a broken pipe. *)
Definition world : World :=
  {| w_fs := fs;
     w_now := "20190101T120000";
     w_magic := λ _, Some "application/octet-stream";
     w_macros := λ _, false;
     w_random := λ n, "job" +:+ pretty n;
     w_drawn := 0;
     w_send_errno := λ _, Some EPIPE;
     w_sends := 0;
     w_trace := [] |}.

(** The same world after the file was replaced and the clock advanced. *)
Definition later : World :=
  {| w_fs := <["/tmp/p001" := File "something else"]> fs;
     w_now := "20190102T080000";
     w_magic := λ _, Some "text/plain";
     w_macros := λ _, true;
     w_random := λ n, "job" +:+ pretty n;
     w_drawn := 0;
     w_send_errno := λ _, Some EPIPE;
     w_sends := 0;
     w_trace := [] |}.

Definition sample_of (path : string) (metainfo : list (string * value)) : Sample :=
  (new_sample path metainfo (Some 3%nat) "/tmp" amavis false world).1.2.

(** An attachment declared as a text file. *)
Definition text : Sample :=
  sample_of "/tmp/p001"
    [("name_declared", VStr "a.txt"); ("type_declared", VStr "text/plain")].

(** A detached S/MIME signature. *)
Definition signature : Sample :=
  sample_of "/tmp/smime.p7s" [("type_declared", VStr "application/pkcs7-signature")].



Definition verdicts : list RuleResult :=
  [ mkRuleResult clean "known good sender";
    mkRuleResult malicious "macro downloads a file";
    mkRuleResult suspicious "unusual extension" ].

(** The text attachment after the rules gave their verdicts. *)
Definition judged : Sample :=
  (for_each verdicts add_rule_result text world).1.2.

End Demo.

(** ** The rest of the class *)

(** *** Plain getters *)

Definition get_file_path (s : Sample) : string := s_path s.
Definition get_filename (s : Sample) : string := s_filename s.
Definition get_result (s : Sample) : Result := s_result s.
Definition get_reason (s : Sample) : option string := s_reason s.
Definition job_id (s : Sample) : Z := s_cuckoo_job_id s.

(** *** The factory *)

Record SampleFactory : Type := mkSampleFactory {
  f_base_dir : string;
  f_job_hash_regex : PyRe.pattern;
  f_keep_mail_data : bool
}.

Definition make_sample (f : SampleFactory) (file_path : string)
    (metainfo : list (string * value)) (socket : option nat) (w : World)
    : outcome unit * Sample * World :=
  new_sample file_path metainfo socket (f_base_dir f) (f_job_hash_regex f)
    (f_keep_mail_data f) w.

(** *** Temporary files *)





(** [self.__cuckoo_job_id = x]. *)
Definition set_cuckoo_job_id (x : Z) (s : Sample) : Sample :=
  mkSample (s_path s) (s_wd s) (s_filename s) (s_submit_path s) x
    (s_result s) (s_reason s) (s_report s) (s_socket s) (s_attributes s)
    (s_base_dir s) (s_job_hash_regex s) (s_keep_mail_data s) (initialized s).

Section Collaborators.

Context (lib : Library).

(** What the socket answers when it is closed, [None] when it closes, and
    what the Cuckoo client answers to a submission: the job id or the
    exception it raises. *)
Variable close_answer : World → option exn.
Variable cuckoo_submit : option string → World → outcome Z * World.

Definition socket_close : M unit :=
  answer <- ask close_answer ;;
  match answer with
  | None => ret tt
  | Some e => raise e
  end.

(** [__close_socket]; [EnvironmentError] is the base class of [IOError] and
    [OSError]. *)
Definition close_socket : M unit :=
  try_except
    (socket <- gets s_socket ;;
     match socket with
     | Some _ => socket_close
     | None => ret tt
     end)
    (λ e, match e with
          | IOError errno | OSError errno =>
              Some (if errno =? EPIPE
                    then logger Warning "Unable to close the socket. Broken pipe."
                    else logger_exception e)
          | _ => None
          end).

(** [__str__]; a member of the enumeration prints as [Result.name]. *)
Definition Sample_str : M string :=
  filename <- gets s_filename ;;
  job <- gets s_cuckoo_job_id ;;
  verdict <- gets s_result ;;
  sha <- sha256sum lib ;;
  ret ("<Sample(filename='" +:+ filename +:+ "', job_id='" +:+ pretty job
       +:+ "', result='Result." +:+ Result_name verdict
       +:+ "', sha256sum='" +:+ py_str lib sha +:+ "')>").

Definition submit_to_cuckoo : M Z :=
  submit_path <- gets s_submit_path ;;
  job <- (λ s w, let '(r, w') := cuckoo_submit submit_path w in (r, s, w')) ;;
  modify (set_cuckoo_job_id job) ;;;
  me <- Sample_str ;;
  let message := "Erfolgreich an Cuckoo gegeben " +:+ me +:+ " als Job "
                 +:+ pretty job +:+ nl in
  report_append message ;;;
  ret job.

End Collaborators.

(** *** Definitions used to state the further properties *)

(** The extension [file_extension] finds or has cached, or the exception it
    raises. *)
Definition known_extension (s : Sample) : outcome value :=
  match s_attributes s !! "file_extension" with
  | Some v => Ok v
  | None =>
      match declared_name s with
      | VAtom (AStr name) => Ok (VStr (PyStr.tail (PyStr.splitext_ext name)))
      | _ => Raise AttributeError
      end
  end.

(** The first line of the report and the lines for the meta information. *)
Definition analysis_line (lib : Library) (filename : string) (sha : value) : string :=
  "Datei " +:+ dquote +:+ filename +:+ dquote +:+ " " +:+ py_str lib sha
  +:+ " wird analysiert" +:+ nl.

Definition meta_lines (lib : Library) (s : Sample) : list string :=
  match s_attributes s !! "meta_info_name_declared" with
  | Some name => ["meta info: name_declared: " +:+ py_str lib name +:+ nl]
  | None => []
  end
  ++ match s_attributes s !! "meta_info_type_declared" with
     | Some type => ["meta info: type_declared: " +:+ py_str lib type +:+ nl]
     | None => []
     end.

(** The messages a sample hands to its socket: all, or none without one. *)
Definition to_socket (s : Sample) (msgs : list string) : list string :=
  match s_socket s with
  | Some _ => msgs
  | None => []
  end.

(** The messages offered to the socket, in order, delivered or not. *)
Definition sent_messages (trace : list event) : list string :=
  omap (λ e, match e with EvSend msg _ => Some msg | _ => None end) trace.

(** What [__str__] gives for a sample whose hash is [sha], and the line that
    [submit_to_cuckoo] appends for the job [job]: the job id is stored
    before the line is formatted, so the line names it twice. *)
Definition sample_text (lib : Library) (s : Sample) (sha : value) : string :=
  "<Sample(filename='" +:+ s_filename s +:+ "', job_id='"
  +:+ pretty (s_cuckoo_job_id s) +:+ "', result='Result."
  +:+ Result_name (s_result s) +:+ "', sha256sum='" +:+ py_str lib sha +:+ "')>".

Definition submission_line (lib : Library) (s : Sample) (job : Z) (sha : value)
    : string :=
  "Erfolgreich an Cuckoo gegeben " +:+ sample_text lib (set_cuckoo_job_id job s) sha
  +:+ " als Job " +:+ pretty job +:+ nl.

(** More of the mail gateway. *)
Module Demo2.

Definition factory : SampleFactory :=
  {| f_base_dir := "/tmp"; f_job_hash_regex := Demo.amavis;
     f_keep_mail_data := false |}.

(** An attachment without an extension, and one whose file is gone. *)
Definition plain : Sample :=
  (make_sample factory "/tmp/p001" [("type_declared", VStr "text/plain")] None
     Demo.world).1.2.

Definition vanished : Sample :=
  (make_sample factory "/tmp/p404" [] None Demo.world).1.2.


(** A socket that refuses to close, and Cuckoo clients that accept and
    refuse. *)
Definition broken_close : World → option exn := λ _, Some (IOError EPIPE).
Definition cuckoo_accepts : option string → World → outcome Z * World :=
  λ _ w, (Ok 7, w).
Definition cuckoo_refuses : option string → World → outcome Z * World :=
  λ _ w, (Raise (ValueError "submission failed"), w).

End Demo2.

(** ** Running the monad *)

Arguments get_attr : simpl never.
Arguments set_attr : simpl never.
Arguments has_attr : simpl never.
Arguments send_message : simpl never.
Arguments determine_result : simpl never.

Ltac run := unfold bind, gets, modify, ret, raise, ask, io; simpl.

(** ** The library functions on examples *)

Example basename_of_part :
  PyStr.basename "/var/lib/amavis/tmp/amavis-20190101T120000-abc/parts/p001" = "p001".
Proof. reflexivity. Qed.

Example extensions :
  PyStr.tail (PyStr.splitext_ext "invoice.tar.gz") = "gz"
  ∧ PyStr.tail (PyStr.splitext_ext ".bashrc") = ""
  ∧ PyStr.tail (PyStr.splitext_ext "archive.d/p001") = ""
  ∧ PyStr.tail (PyStr.splitext_ext "p001") = "".
Proof. repeat split; reflexivity. Qed.

Example joined_paths :
  PyStr.join "/tmp" "job0" = "/tmp/job0" ∧ PyStr.join "/tmp/" "job0" = "/tmp/job0"
  ∧ PyStr.join "/tmp" "/job0" = "/job0".
Proof. repeat split; reflexivity. Qed.

Example substitutions :
  PyRe.sub_group1 Demo.amavis "/var/lib/amavis/tmp/abc/parts/p001" = "abc"
  ∧ PyRe.sub_group1 Demo.amavis "/srv/var/lib/amavis/tmp/abc/parts/p001" = "/srvabc"
  ∧ PyRe.sub_group1 Demo.amavis "/tmp/p001" = "/tmp/p001".
Proof. repeat split; vm_compute; reflexivity. Qed.

(** Of two verdicts of the same severity the later one gives the reason. *)
Example last_equal_wins :
  aggregate (unchecked, None)
    [mkRuleResult suspicious "reasonA"; mkRuleResult suspicious "reasonB"]
  = (suspicious, Some "reasonB").
Proof. reflexivity. Qed.

Section Properties.

Context (lib : Library).

Lemma bind_Ok {A B} (c : M A) (k : A → M B) s w a s' w' :
  c s w = (Ok a, s', w') → bind c k s w = k a s' w'.
Proof. unfold bind. by intros ->. Qed.

Lemma bind_Raise {A B} (c : M A) (k : A → M B) s w e s' w' :
  c s w = (Raise e, s', w') → bind c k s w = (Raise e, s', w').
Proof. unfold bind. by intros ->. Qed.

Lemma bind_Ok_inv {A B} (c : M A) (k : A → M B) s w b s1 w1 :
  bind c k s w = (Ok b, s1, w1) →
  ∃ a s' w', c s w = (Ok a, s', w') ∧ k a s' w' = (Ok b, s1, w1).
Proof.
  unfold bind. destruct (c s w) as [[[a|e] s'] w']; [eauto|done].
Qed.

Lemma bind_gets {A B} (f : Sample → A) (k : A → M B) s w :
  bind (gets f) k s w = k (f s) s w.
Proof. done. Qed.

Lemma bind_modify {B} (f : Sample → Sample) (k : unit → M B) s w :
  bind (modify f) k s w = k () (f s) w.
Proof. done. Qed.

Lemma bind_ask {A B} (f : World → A) (k : A → M B) s w :
  bind (ask f) k s w = k (f w) s w.
Proof. done. Qed.

Lemma bind_io {B} (f : World → World) (k : unit → M B) s w :
  bind (io f) k s w = k () s (f w).
Proof. done. Qed.

Lemma bind_ret {A B} (a : A) (k : A → M B) s w :
  bind (ret a) k s w = k a s w.
Proof. done. Qed.

Lemma has_attr_Some key s v :
  s_attributes s !! key = Some v → has_attr key s = true.
Proof. unfold has_attr. by intros ->. Qed.

Lemma has_attr_None key s :
  s_attributes s !! key = None ↔ has_attr key s = false.
Proof. unfold has_attr. destruct (s_attributes s !! key); split; done. Qed.

Lemma has_attr_true key s :
  has_attr key s = true → ∃ v, s_attributes s !! key = Some v.
Proof. unfold has_attr. destruct (s_attributes s !! key); [eauto | done]. Qed.

Lemma get_attr_Some key s w v :
  s_attributes s !! key = Some v → get_attr key s w = (Ok v, s, w).
Proof.
  intros H. unfold get_attr, attributes_getitem. run.
  by rewrite (has_attr_Some _ _ _ H), H.
Qed.

Lemma get_attr_None key s w :
  has_attr key s = false →
  get_attr key s w
  = (Raise (KeyError ("Attribute for key '" +:+ key +:+ "' not found.")), s, w).
Proof. intros H. unfold get_attr. run. by rewrite H. Qed.

Lemma set_attr_override key val s w :
  set_attr key val true s w
  = (Ok (), set_attributes (<[key := val]> (s_attributes s)) s, w).
Proof. unfold set_attr. run. by rewrite andb_false_r. Qed.

Lemma set_attr_fresh key val override s w :
  has_attr key s = false →
  set_attr key val override s w
  = (Ok (), set_attributes (<[key := val]> (s_attributes s)) s, w).
Proof. intros H. unfold set_attr. run. by rewrite H. Qed.

(** C7. Setting an attribute with [override = False] on a key that exists
    raises the already-exists [KeyError] and leaves the sample, hence the
    value stored under the key, as it was; with [override = True], or on a
    key that does not exist, the value is stored: reading the key gives
    it back, and the other keys keep their values. *)
Theorem set_attr_contract (key : string) (val : value) (s : Sample) (w : World) :
  (∀ old, s_attributes s !! key = Some old →
     set_attr key val false s w
     = (Raise (KeyError ("Key '" +:+ key +:+ "' already exists.")), s, w)
     ∧ get_attr key s w = (Ok old, s, w))
  ∧ (∀ override, override = true ∨ has_attr key s = false →
     ∃ s', set_attr key val override s w = (Ok (), s', w)
           ∧ get_attr key s' w = (Ok val, s', w)
           ∧ ∀ k, k ≠ key → s_attributes s' !! k = s_attributes s !! k).
Proof.
  split.
  - intros old Hold. split; [|by apply get_attr_Some].
    unfold set_attr. run. by rewrite (has_attr_Some _ _ _ Hold).
  - intros override Hcase.
    exists (set_attributes (<[key := val]> (s_attributes s)) s).
    split; [|split].
    + destruct Hcase as [-> | Hfresh];
        [apply set_attr_override | by apply set_attr_fresh].
    + apply get_attr_Some. simpl. apply lookup_insert_eq.
    + intros k Hk. simpl. by apply lookup_insert_ne.
Qed.

Lemma set_attributes_id s : set_attributes (s_attributes s) s = s.
Proof. by destruct s. Qed.

(** [remove_attr] deletes the key when it is there, and raises in every
    case. *)
Lemma remove_attr_always_raises key s w :
  remove_attr key s w
  = (Raise (ValueError ("No attribute named " +:+ dquote +:+ key +:+ dquote
                        +:+ " found.")),
     set_attributes (delete key (s_attributes s)) s, w).
Proof.
  unfold remove_attr. run. destruct (has_attr key s) eqn:H; simpl; [done|].
  apply has_attr_None in H. by rewrite (delete_id _ _ H), set_attributes_id.
Qed.

(** C3. On a sample that has the attribute [meta_info_name_declared],
    [remove_attr] deletes it and raises the not-found [ValueError] all the
    same: it does not return normally for a key that is present. *)
Theorem remove_attr_present_still_raises :
  has_attr "meta_info_name_declared" Demo.text = true
  ∧ ∃ s', remove_attr "meta_info_name_declared" Demo.text Demo.world
          = (Raise (ValueError ("No attribute named " +:+ dquote
                                +:+ "meta_info_name_declared" +:+ dquote
                                +:+ " found.")), s', Demo.world)
          ∧ has_attr "meta_info_name_declared" s' = false.
Proof.
  split; [done|]. eexists. split; [apply remove_attr_always_raises|].
  apply has_attr_None. simpl. apply lookup_delete_eq.
Qed.

(** The attributes a new sample has come from its meta information, under
    keys that start with [meta_info_]: it has no verdicts and no cached
    MIME set. *)
Lemma read_metainfo_keeps key metainfo s w :
  (∀ field, "meta_info_" +:+ field ≠ key) →
  ∃ s', read_metainfo metainfo s w = (Ok (), s', w)
        ∧ s_attributes s' !! key = s_attributes s !! key.
Proof.
  intros Hkey. unfold read_metainfo. revert s.
  induction metainfo as [|[field v] metainfo IH]; intros s; simpl.
  - by exists s.
  - unfold bind at 1. destruct (negb (is_None v)).
    + rewrite set_attr_override.
      destruct (IH (set_attributes
                      (<["meta_info_" +:+ field := v]> (s_attributes s)) s))
        as (s' & -> & Hs').
      exists s'. split; [done|]. rewrite Hs'. simpl.
      by apply lookup_insert_ne.
    + unfold ret at 1. destruct (IH s) as (s' & -> & Hs'). by exists s'.
Qed.

Lemma new_sample_lacks key path metainfo socket base_dir regex keep w :
  (∀ field, "meta_info_" +:+ field ≠ key) →
  ∃ s, new_sample path metainfo socket base_dir regex keep w = (Ok (), s, w)
       ∧ has_attr key s = false.
Proof.
  intros Hkey. unfold new_sample.
  destruct (read_metainfo_keeps key metainfo
              (blank_sample path socket base_dir regex keep) w Hkey)
    as (s & Hs & Hkeep).
  exists s. split; [done|]. apply has_attr_None. by rewrite Hkeep.
Qed.

Lemma new_sample_has_no_verdicts path metainfo socket base_dir regex keep w :
  ∃ s, new_sample path metainfo socket base_dir regex keep w = (Ok (), s, w)
       ∧ has_attr "rule_results" s = false.
Proof. by apply new_sample_lacks. Qed.

Lemma new_sample_has_no_mimetypes path metainfo socket base_dir regex keep w :
  ∃ s, new_sample path metainfo socket base_dir regex keep w = (Ok (), s, w)
       ∧ has_attr "mimetypes" s = false.
Proof. apply new_sample_lacks. intros field [=]. Qed.

Lemma determine_result_without_verdicts s w :
  has_attr "rule_results" s = false →
  determine_result lib s w
  = (Raise (KeyError "Attribute for key 'rule_results' not found."), s, w).
Proof.
  intros H. unfold determine_result, bind at 1.
  by rewrite (get_attr_None _ _ _ H).
Qed.

(** C10. On a sample without the attribute [rule_results], as every sample
    is on which [add_rule_result] was never called, [determine_result] and
    [report] raise the not-found [KeyError] for that key and leave the
    sample (its report, result and reason) and the world as they were:
    nothing is appended and nothing is sent. *)
Theorem report_without_verdicts (s : Sample) (w : World) :
  has_attr "rule_results" s = false →
  determine_result lib s w
  = (Raise (KeyError "Attribute for key 'rule_results' not found."), s, w)
  ∧ report lib s w
    = (Raise (KeyError "Attribute for key 'rule_results' not found."), s, w).
Proof.
  intros H. split; [by apply determine_result_without_verdicts|].
  unfold report, bind at 1.
  by rewrite (determine_result_without_verdicts _ _ H).
Qed.

(** *** Verdict aggregation *)

Lemma add_rule_result_first v s w :
  has_attr "rule_results" s = false →
  add_rule_result v s w
  = (Ok (), set_attributes (<["rule_results" := VRules [v]]> (s_attributes s)) s, w).
Proof.
  intros H. unfold add_rule_result. run. rewrite H. simpl.
  apply set_attr_override.
Qed.

Lemma add_rule_result_next v l s w :
  s_attributes s !! "rule_results" = Some (VRules l) →
  add_rule_result v s w
  = (Ok (), set_attributes (<["rule_results" := VRules (l ++ [v])]> (s_attributes s)) s, w).
Proof.
  intros H. unfold add_rule_result. run.
  rewrite (has_attr_Some _ _ _ H), (get_attr_Some _ _ _ _ H). simpl.
  apply set_attr_override.
Qed.

Lemma add_rule_results_accumulate vs l s w :
  s_attributes s !! "rule_results" = Some (VRules l) →
  for_each vs add_rule_result s w
  = (Ok (), set_attributes (<["rule_results" := VRules (l ++ vs)]> (s_attributes s)) s, w).
Proof.
  revert l s. induction vs as [|v vs IH]; intros l s H; simpl.
  - unfold ret. rewrite app_nil_r, (insert_id _ _ _ H).
    by rewrite set_attributes_id.
  - unfold bind at 1. rewrite (add_rule_result_next _ _ _ _ H).
    rewrite (IH (l ++ [v])); [|simpl; apply lookup_insert_eq].
    simpl. by rewrite insert_insert_eq, <- app_assoc.
Qed.

(** The loop of [determine_result] is the fold of the specification. *)
Lemma determine_result_loop vs s w :
  for_each (ItRule <$> vs) (λ rule_result,
    current <- gets s_result ;;
    verdict <- item_result rule_result ;;
    if Result_ge verdict current then
      modify (set_result verdict) ;;;
      why <- item_reason rule_result ;;
      modify (set_reason (Some why))
    else ret ()) s w
  = (Ok (),
     set_reason (aggregate (s_result s, s_reason s) vs).2
       (set_result (aggregate (s_result s, s_reason s) vs).1 s), w).
Proof.
  revert s. induction vs as [|v vs IH]; intros s.
  - simpl. unfold ret. by destruct s.
  - rewrite fmap_cons. simpl for_each. unfold bind at 1. run.
    unfold aggregate at 1 2. simpl foldl. unfold aggregate_step at 2 4. simpl.
    destruct (Result_ge (result v) (s_result s)); simpl.
    + rewrite IH. simpl. by destruct s.
    + rewrite IH. by destruct s.
Qed.

Lemma determine_result_fold vs s w :
  s_attributes s !! "rule_results" = Some (VRules vs) →
  determine_result lib s w
  = (Ok (),
     set_reason (aggregate (s_result s, s_reason s) vs).2
       (set_result (aggregate (s_result s, s_reason s) vs).1 s), w).
Proof.
  intros H. unfold determine_result, bind at 1.
  rewrite (get_attr_Some _ _ _ _ H). unfold bind at 1. simpl iterate.
  unfold ret at 1. apply determine_result_loop.
Qed.

Lemma aggregate_bounded vs held (bound : Z) :
  Result_value held.1 ≤ bound →
  (∀ u, u ∈ vs → Result_value (result u) ≤ bound) →
  Result_value (aggregate held vs).1 ≤ bound.
Proof.
  revert held. induction vs as [|v vs IH]; intros held Hheld Hall; [done|].
  unfold aggregate. simpl. apply IH.
  - unfold aggregate_step. destruct (Result_ge (result v) held.1); [|done].
    simpl. apply Hall. left.
  - intros u Hu. apply Hall. by right.
Qed.

Lemma aggregate_keeps vs held :
  (∀ u, u ∈ vs → Result_value (result u) < Result_value held.1) →
  aggregate held vs = held.
Proof.
  induction vs as [|v vs IH]; intros Hall; [done|].
  unfold aggregate. simpl.
  assert (Result_ge (result v) held.1 = false) as Hlt.
  { unfold Result_ge. apply Z.leb_gt. apply Hall. left. }
  unfold aggregate_step at 2. rewrite Hlt. apply IH.
  intros u Hu. apply Hall. by right.
Qed.

(** The last verdict of maximal severity supplies the pair, when the held
    severity is not above it. *)
Lemma aggregate_last_worst pre m post held :
  (∀ u, u ∈ pre → Result_value (result u) ≤ Result_value (result m)) →
  (∀ u, u ∈ post → Result_value (result u) < Result_value (result m)) →
  Result_value held.1 ≤ Result_value (result m) →
  aggregate held (pre ++ m :: post) = (result m, Some (reason m)).
Proof.
  intros Hpre Hpost Hheld. unfold aggregate. rewrite foldl_app. simpl.
  fold (aggregate held pre).
  pose proof (aggregate_bounded pre held _ Hheld Hpre) as Hb.
  unfold aggregate_step at 2.
  assert (Result_ge (result m) (aggregate held pre).1 = true) as ->.
  { unfold Result_ge. by apply Z.leb_le. }
  by apply (aggregate_keeps post (result m, Some (reason m))).
Qed.

(** C1. After the verdicts [v :: vs] were added in order by
    [add_rule_result] to a sample that had none, [determine_result] returns
    normally and sets [(result, reason)] to the fold of the sequence in
    order that replaces the held pair by a verdict's (severity, reason)
    exactly when its severity is greater than or equal to the held one;
    nothing else changes. When [m] is the last verdict of maximal severity
    (no earlier verdict is more severe, every later one is strictly less
    severe) and the held severity is not above it, as for the initial
    [unchecked], the final pair is the severity and the reason of [m]. *)
Theorem determine_result_aggregates (v : RuleResult) (vs : list RuleResult)
    (s : Sample) (w : World) :
  has_attr "rule_results" s = false →
  ∃ s1, for_each (v :: vs) add_rule_result s w = (Ok (), s1, w)
    ∧ s_attributes s1 !! "rule_results" = Some (VRules (v :: vs))
    ∧ (s_result s1, s_reason s1) = (s_result s, s_reason s)
    ∧ determine_result lib s1 w
      = (Ok (),
         set_reason (aggregate (s_result s, s_reason s) (v :: vs)).2
           (set_result (aggregate (s_result s, s_reason s) (v :: vs)).1 s1), w)
    ∧ ∀ pre m post,
        v :: vs = pre ++ m :: post →
        (∀ u, u ∈ pre → Result_value (result u) ≤ Result_value (result m)) →
        (∀ u, u ∈ post → Result_value (result u) < Result_value (result m)) →
        Result_value (s_result s) ≤ Result_value (result m) →
        aggregate (s_result s, s_reason s) (v :: vs)
        = (result m, Some (reason m)).
Proof.
  intros Hnone. eexists. split; [|split; [|split; [|split]]].
  - simpl for_each. unfold bind at 1.
    rewrite (add_rule_result_first _ _ _ Hnone).
    apply (add_rule_results_accumulate vs [v]). simpl. apply lookup_insert_eq.
  - simpl. apply lookup_insert_eq.
  - done.
  - erewrite determine_result_fold; [done|]. simpl. apply lookup_insert_eq.
  - intros pre m post -> Hpre Hpost Hheld. by apply aggregate_last_worst.
Qed.

(** *** The report channel *)

Lemma socket_send_state msg s w :
  ∃ r w', socket_send msg s w = (r, s, w')
          ∧ (r = Ok () ∨ ∃ errno, r = Raise (IOError errno)).
Proof.
  unfold socket_send. run.
  destruct (w_send_errno w (w_sends w)); simpl; eauto 6.
Qed.

Lemma send_message_never_raises msg s w :
  ∃ w', send_message msg s w = (Ok (), s, w').
Proof.
  unfold send_message. run. destruct (s_socket s); [|eauto].
  unfold try_except.
  destruct (socket_send_state msg s w) as (r & w' & -> & [-> | [errno ->]]);
    [eauto|].
  destruct (errno =? EPIPE); unfold logger, logger_exception, io; eauto.
Qed.

(** Appending a line to the report and sending it, as [init] and [report]
    do for every line they send. *)
Lemma emit_appends msg s w :
  ∃ w', (report_append msg ;;; send_message msg) s w
        = (Ok (), set_report (s_report s ++ [msg]) s, w').
Proof.
  unfold report_append. run.
  apply (send_message_never_raises msg (set_report (s_report s ++ [msg]) s) w).
Qed.

Lemma report_loop vs s w :
  ∃ w', for_each (ItRule <$> vs) (λ rule_result,
          filename <- gets s_filename ;;
          let message := "Datei " +:+ dquote +:+ filename +:+ dquote +:+ ": "
                         +:+ item_str lib rule_result +:+ nl in
          report_append message ;;;
          send_message message) s w
        = (Ok (),
           set_report (s_report s ++ (verdict_line lib (s_filename s) <$> vs)) s,
           w').
Proof.
  revert s w. induction vs as [|v vs IH]; intros s w.
  - exists w. simpl. unfold ret. rewrite app_nil_r. by destruct s.
  - rewrite fmap_cons. simpl for_each.
    destruct (emit_appends (verdict_line lib (s_filename s) v) s w) as [w1 H1].
    erewrite bind_Ok; [|exact H1].
    destruct (IH (set_report (s_report s ++ [verdict_line lib (s_filename s) v]) s) w1)
      as [w' Hrest].
    exists w'. etrans; [exact Hrest|]. simpl. by rewrite <- app_assoc.
Qed.

Lemma report_with_verdicts vs s w :
  s_attributes s !! "rule_results" = Some (VRules vs) →
  ∃ w', report lib s w
        = (Ok (),
           set_report
             (s_report s ++ (verdict_line lib (s_filename s) <$> vs)
              ++ [final_line (s_filename s)
                    (aggregate (s_result s, s_reason s) vs).1])
             (set_reason (aggregate (s_result s, s_reason s) vs).2
                (set_result (aggregate (s_result s, s_reason s) vs).1 s)),
           w').
Proof.
  intros H. unfold report.
  erewrite bind_Ok; [|by apply determine_result_fold].
  set (s1 := set_reason _ _).
  erewrite bind_Ok; [|by apply (get_attr_Some "rule_results" s1 w (VRules vs))].
  erewrite bind_Ok; [|reflexivity].
  destruct (report_loop vs s1 w) as [w1 Hloop].
  erewrite bind_Ok; [|exact Hloop].
  rewrite !bind_gets.
  destruct (emit_appends
              (final_line (s_filename s) (aggregate (s_result s, s_reason s) vs).1)
              (set_report (s_report s1 ++ (verdict_line lib (s_filename s1) <$> vs)) s1)
              w1) as [w' H'].
  exists w'. etrans; [exact H'|]. simpl. by rewrite <- app_assoc.
Qed.

(** C9. Whatever the socket answers, also when it fails every send with a
    broken pipe or another I/O error, [__send_message] returns normally and
    leaves the sample as it was; a line that is appended and sent is in
    the in-memory report afterwards; and [report], on a sample with
    verdicts, returns normally with the lines of the verdicts and the
    final line appended to the report in order. *)
Theorem send_failures_are_swallowed (msg : string) (s : Sample) (w : World) :
  (∃ w', send_message msg s w = (Ok (), s, w'))
  ∧ (∃ w', (report_append msg ;;; send_message msg) s w
           = (Ok (), set_report (s_report s ++ [msg]) s, w'))
  ∧ ∀ vs, s_attributes s !! "rule_results" = Some (VRules vs) →
      ∃ s' w', report lib s w = (Ok (), s', w')
        ∧ s_report s'
          = s_report s ++ (verdict_line lib (s_filename s) <$> vs)
            ++ [final_line (s_filename s)
                  (aggregate (s_result s, s_reason s) vs).1].
Proof.
  split; [apply send_message_never_raises|].
  split; [apply emit_appends|].
  intros vs H. destruct (report_with_verdicts vs s w H) as [w' ->].
  by eexists _, w'.
Qed.

(** *** Initialisation *)

(** A computation that leaves the [initialized] flag alone. *)
Definition keeps_flag {A} (c : M A) : Prop :=
  ∀ s w, initialized (c s w).1.2 = initialized s.

Lemma keeps_ret {A} (a : A) : keeps_flag (ret a).
Proof. done. Qed.

Lemma keeps_raise {A} e : keeps_flag (@raise A e).
Proof. done. Qed.

Lemma keeps_gets {A} (f : Sample → A) : keeps_flag (gets f).
Proof. done. Qed.

Lemma keeps_ask {A} (f : World → A) : keeps_flag (ask f).
Proof. done. Qed.

Lemma keeps_io f : keeps_flag (io f).
Proof. done. Qed.

Lemma keeps_modify f :
  (∀ s, initialized (f s) = initialized s) → keeps_flag (modify f).
Proof. intros H s w. apply H. Qed.

Lemma keeps_bind {A B} (c : M A) (k : A → M B) :
  keeps_flag c → (∀ a, keeps_flag (k a)) → keeps_flag (bind c k).
Proof.
  intros Hc Hk s w. unfold bind. specialize (Hc s w).
  destruct (c s w) as [[[a|e] s'] w']; simpl in *; [|done].
  by rewrite Hk.
Qed.

Lemma keeps_try_except {A} (c : M A) handler :
  keeps_flag c → (∀ e h, handler e = Some h → keeps_flag h) →
  keeps_flag (try_except c handler).
Proof.
  intros Hc Hh s w. unfold try_except. specialize (Hc s w).
  destruct (c s w) as [[[a|e] s'] w']; simpl in *; [done|].
  destruct (handler e) as [h|] eqn:He; [|done].
  by rewrite (Hh e h He).
Qed.

Create HintDb keeps discriminated.

Ltac keeps :=
  repeat first
    [ solve [auto with keeps nocore]
    | apply keeps_ret | apply keeps_raise | apply keeps_gets | apply keeps_ask
    | apply keeps_io | apply keeps_modify; by intros []
    | apply keeps_bind; [|intros ?]
    | match goal with
      | |- keeps_flag (if ?b then _ else _) => destruct b
      | |- keeps_flag (match ?x with _ => _ end) => destruct x
      end ].

Lemma keeps_get_attr key : keeps_flag (get_attr key).
Proof. unfold get_attr, attributes_getitem. keeps. Qed.

Lemma keeps_set_attr key val override : keeps_flag (set_attr key val override).
Proof. unfold set_attr. keeps. Qed.

Lemma keeps_open_read path : keeps_flag (open_read path).
Proof. unfold open_read. keeps. Qed.

Local Hint Resolve keeps_get_attr keeps_set_attr keeps_open_read : keeps.

Lemma keeps_sha256sum : keeps_flag (sha256sum lib).
Proof. unfold sha256sum. keeps. Qed.

Lemma keeps_send_message msg : keeps_flag (send_message msg).
Proof.
  unfold send_message. keeps. apply keeps_try_except.
  - unfold socket_send. keeps.
  - intros [] h; try done. intros [= <-].
    unfold logger, logger_exception. keeps.
Qed.

Lemma keeps_report_append msg : keeps_flag (report_append msg).
Proof. unfold report_append. keeps. Qed.

Local Hint Resolve keeps_sha256sum keeps_send_message keeps_report_append : keeps.

Lemma init_when_initialized s w :
  initialized s = true → init lib s w = (Ok (), s, w).
Proof. intros H. unfold init. by rewrite bind_gets, H. Qed.

Lemma init_sets_flag s w s1 w1 :
  init lib s w = (Ok (), s1, w1) → initialized s1 = true.
Proof.
  unfold init. rewrite bind_gets.
  destruct (initialized s) eqn:Hflag; [by intros [= <- _]|].
  rewrite bind_gets, bind_modify. intros H.
  apply bind_Ok_inv in H as (file_ext & sa & wa & _ & H).
  apply bind_Ok_inv in H as (? & sb & wb & _ & H).
  rewrite bind_modify in H.
  match type of H with
  | ?post _ _ = _ =>
      assert (keeps_flag post) as Hkeep
  end.
  { keeps. }
  specialize (Hkeep (set_initialized true sb) wb). by rewrite H in Hkeep.
Qed.

(** C6. After a call of [init] that completed, a second call is a no-op:
    it returns at once and leaves the sample (its working directory, its
    submit path, its report and all the rest) and the world (no directory,
    no symlink, nothing read, nothing sent) exactly as they were. *)
Theorem init_idempotent (s : Sample) (w : World) (s1 : Sample) (w1 : World) :
  init lib s w = (Ok (), s1, w1) →
  ∀ w', init lib s1 w' = (Ok (), s1, w').
Proof.
  intros H w'. apply init_when_initialized. by eapply init_sets_flag.
Qed.

(** *** Memoised properties *)

(** A computation whose value, when it returns, is what the sample holds
    under [key] afterwards. *)
Definition caches (key : string) (c : M value) : Prop :=
  ∀ s w v s1 w1, c s w = (Ok v, s1, w1) → s_attributes s1 !! key = Some v.

(** A computation that returns what the sample holds under [key], when it
    holds something, without touching the sample or the world. *)
Definition reads_cache (key : string) (c : M value) : Prop :=
  ∀ s w v, s_attributes s !! key = Some v → c s w = (Ok v, s, w).

Lemma caches_raise key e : caches key (raise e).
Proof. by intros s w v s1 w1. Qed.

Lemma caches_bind {A} key (c : M A) (k : A → M value) :
  (∀ a, caches key (k a)) → caches key (bind c k).
Proof.
  intros Hk s w v s1 w1 H.
  apply bind_Ok_inv in H as (a & s' & w' & _ & H). by eapply Hk.
Qed.

Lemma caches_get_attr key : caches key (get_attr key).
Proof.
  intros s w v s1 w1. destruct (has_attr key s) eqn:H.
  - apply has_attr_true in H as [v0 H0].
    rewrite (get_attr_Some _ _ _ _ H0). by intros [= <- <- _].
  - by rewrite (get_attr_None _ _ _ H).
Qed.

Lemma caches_set_attr key v : caches key (set_attr key v true ;;; ret v).
Proof.
  intros s w v' s1 w1. erewrite bind_Ok; [|apply set_attr_override].
  intros [= <- <- _]. simpl. apply lookup_insert_eq.
Qed.

Ltac caches :=
  repeat first
    [ apply caches_get_attr | apply caches_set_attr | apply caches_raise
    | apply caches_bind; intros ?
    | match goal with
      | |- caches _ (if ?b then _ else _) => destruct b
      | |- caches _ (match ?x with _ => _ end) => destruct x
      end ].

Lemma sha256sum_caches : caches "sha256sum" (sha256sum lib).
Proof. unfold sha256sum. caches. Qed.





Lemma sha256sum_reads_cache : reads_cache "sha256sum" (sha256sum lib).
Proof.
  intros s w v H. unfold sha256sum.
  rewrite bind_gets, (has_attr_Some _ _ _ H). by apply get_attr_Some.
Qed.


Lemma mimetypes_reads_cache : reads_cache "mimetypes" (mimetypes lib).
Proof.
  intros s w v H. unfold mimetypes.
  rewrite bind_gets, (has_attr_Some _ _ _ H). by apply get_attr_Some.
Qed.






(** *** MIME types *)

Lemma add_sniffed_union x (m : gset atom) : add_sniffed x m = m ∪ sniffed_set x.
Proof.
  destruct x; simpl; [apply (comm_L (∪))|by rewrite union_empty_r_L].
Qed.

(** What the first access of [mimetypes] computes, for a declared type
    that can be put in a set. *)
Lemma mimetypes_computed s w :
  has_attr "mimetypes" s = false →
  hashable (declared_type s) = true →
  mimetypes lib s w
  = if smime_exception s then
      (Ok (VMimes (declared_set s)),
       set_attributes (<["mimetypes" := VMimes (declared_set s)]> (s_attributes s)) s,
       record (EvLog Info
                 "S/MIME signature detected. Using declared MIME type over detected ones.") w)
    else
      let m := declared_set s ∪ sniffed_set (w_magic w (s_path s))
               ∪ sniffed_set (guess_mime_type_from_filename lib (declared_name s)) in
      (Ok (VMimes m),
       set_attributes (<["mimetypes" := VMimes m]> (s_attributes s)) s,
       record (EvGuessName (declared_name s)) (record (EvMagic (s_path s)) w)).
Proof.
  intros Hfresh Hhash. unfold mimetypes.
  rewrite bind_gets, Hfresh. cbv iota. rewrite bind_gets.
  unfold smime_exception, declared_set, declared_type, declared_name, VNone in *.
  destruct (s_attributes s !! "meta_info_type_declared") as [[a| |]|] eqn:Ht;
    try done;
    destruct (s_attributes s !! "meta_info_name_declared") as [n|] eqn:Hn.
  all: try rewrite (has_attr_Some _ _ _ Ht).
  all: try rewrite (proj1 (has_attr_None _ _) Ht).
  all: cbv iota.
  all: erewrite ?bind_Ok by (apply get_attr_Some; eassumption).
  all: rewrite ?bind_ret.
  all: try destruct a as [|mt|b|st].
  all: cbv beta iota delta [negb is_None andb set_add VNone].
  all: rewrite ?bind_ret, ?bind_gets.
  all: try rewrite (has_attr_Some _ _ _ Hn).
  all: try rewrite (proj1 (has_attr_None _ _) Hn).
  all: cbv iota.
  all: erewrite ?bind_Ok by (apply get_attr_Some; eassumption).
  all: rewrite ?bind_ret.
  all: change (in_strs (VAtom ANone) leave_alone_types_p7s) with false.
  all: try change (in_strs (VAtom (ABool b)) leave_alone_types_p7s) with false.
  all: try change (in_strs (VAtom (AStat st)) leave_alone_types_p7s) with false.
  all: destruct (eq_str _ "smime.p7s"); try destruct (in_strs _ _); cbv iota.
  all: unfold guess_mime_type_from_file_contents, logger.
  all: repeat first
         [ rewrite bind_io | rewrite bind_ret | rewrite bind_gets
         | erewrite bind_Ok by (first [apply set_attr_override | reflexivity]) ].
  all: rewrite ?add_sniffed_union, ?union_empty_r_L, ?union_empty_l_L.
  all: reflexivity.
Qed.

Lemma in_leave_alone_types mt :
  mt ∈ leave_alone_types_p7s → in_strs (VStr mt) leave_alone_types_p7s = true.
Proof.
  unfold leave_alone_types_p7s. intros H.
  repeat (apply elem_of_cons in H as [-> | H]; [done|]).
  by apply elem_of_nil in H.
Qed.

(** C2. On a sample whose MIME set is not cached yet, whose declared name
    (or raw file name, absent a declaration) is [smime.p7s] and whose
    declared type is one of the four PKCS#7 types, [mimetypes] returns
    exactly the set holding the declared type and caches it. The world it
    leaves has one more log line and nothing else: neither sniffer was
    asked, and what the content sniffer would have answered plays no
    part. Every later access returns the same singleton. *)
Theorem mimetypes_smime_signature (s : Sample) (w : World) (mt : string) :
  has_attr "mimetypes" s = false →
  declared_name s = VStr "smime.p7s" →
  s_attributes s !! "meta_info_type_declared" = Some (VStr mt) →
  mt ∈ leave_alone_types_p7s →
  let s' := set_attributes
              (<["mimetypes" := VMimes {[AStr mt]}]> (s_attributes s)) s in
  mimetypes lib s w
  = (Ok (VMimes {[AStr mt]}), s',
     record (EvLog Info
               "S/MIME signature detected. Using declared MIME type over detected ones.") w)
  ∧ ∀ w', mimetypes lib s' w' = (Ok (VMimes {[AStr mt]}), s', w').
Proof.
  intros Hfresh Hname Htype Hallowed s'.
  assert (declared_type s = VStr mt) as Hdecl.
  { unfold declared_type. by rewrite Htype. }
  split.
  - rewrite mimetypes_computed; [|done|by rewrite Hdecl].
    unfold smime_exception, declared_set. rewrite Hname, Hdecl.
    by rewrite (in_leave_alone_types _ Hallowed).
  - intros w'. apply mimetypes_reads_cache. apply lookup_insert_eq.
Qed.

(** C5. On a sample whose MIME set is not cached yet and that is outside
    the S/MIME exception, [mimetypes] returns and caches the union of the
    declared type (when the attribute is there and not [None]), of the
    type sniffed from the content of the original path (when there is
    one) and of the type sniffed from the declared or raw name (when
    there is one), after asking each sniffer once; a sniffer without a
    result adds nothing. Every later access returns the same set. The
    declared type is taken to be a value that a set can hold, as a string
    is. *)
Theorem mimetypes_general (s : Sample) (w : World) :
  has_attr "mimetypes" s = false →
  smime_exception s = false →
  hashable (declared_type s) = true →
  let m := declared_set s
           ∪ sniffed_set (w_magic w (s_path s))
           ∪ sniffed_set (guess_mime_type_from_filename lib (declared_name s)) in
  let s' := set_attributes (<["mimetypes" := VMimes m]> (s_attributes s)) s in
  mimetypes lib s w
  = (Ok (VMimes m), s',
     record (EvGuessName (declared_name s)) (record (EvMagic (s_path s)) w))
  ∧ ∀ w', mimetypes lib s' w' = (Ok (VMimes m), s', w').
Proof.
  intros Hfresh Hout Hhash m s'. split.
  - rewrite mimetypes_computed by done. by rewrite Hout.
  - intros w'. apply mimetypes_reads_cache. apply lookup_insert_eq.
Qed.

(** *** What the computing access asks of the world *)












(** *** The job hash *)








Lemma create_entry_run path nd s w :
  create_entry path nd s w
  = if creatable (w_fs w) path then (Ok (), s, set_w_fs (<[path := nd]> (w_fs w)) w)
    else (Raise (OSError match w_fs w !! path with
                         | Some _ => EEXIST
                         | None =>
                             match follow MAXSYMLINKS (w_fs w) (PyStr.dirname path) with
                             | inl errno => errno
                             | inr _ => ENOTDIR
                             end
                         end), s, w).
Proof.
  unfold create_entry, creatable. rewrite bind_ask.
  destruct (w_fs w !! path); [done|].
  by destruct (follow MAXSYMLINKS (w_fs w) (PyStr.dirname path)) as [?|[]].
Qed.



End Properties.

(** ** The properties at work on the examples *)

Lemma set_attr_contract_witness :
  (set_attr "meta_info_name_declared" (VStr "b.txt") false Demo.text Demo.world
   = (Raise (KeyError "Key 'meta_info_name_declared' already exists."),
      Demo.text, Demo.world)
   ∧ get_attr "meta_info_name_declared" Demo.text Demo.world
     = (Ok (VStr "a.txt"), Demo.text, Demo.world))
  ∧ ∃ s', set_attr "meta_info_name_declared" (VStr "b.txt") true Demo.text Demo.world
          = (Ok (), s', Demo.world)
          ∧ get_attr "meta_info_name_declared" s' Demo.world
            = (Ok (VStr "b.txt"), s', Demo.world).
Proof.
  destruct (set_attr_contract "meta_info_name_declared" (VStr "b.txt")
              Demo.text Demo.world) as [Hkeep Hstore].
  split.
  - apply (Hkeep (VStr "a.txt")). vm_compute. reflexivity.
  - destruct (Hstore true) as (s' & H1 & H2 & _); [left; reflexivity|].
    exists s'. split; assumption.
Defined.

Lemma report_without_verdicts_witness :
  has_attr "rule_results" Demo.text = false
  ∧ report Demo.lib Demo.text Demo.world
    = (Raise (KeyError "Attribute for key 'rule_results' not found."),
       Demo.text, Demo.world).
Proof.
  split; [vm_compute; reflexivity|].
  apply (report_without_verdicts Demo.lib Demo.text Demo.world).
  vm_compute. reflexivity.
Defined.

Lemma determine_result_aggregates_witness :
  has_attr "rule_results" Demo.text = false
  ∧ ∃ s1, for_each Demo.verdicts add_rule_result Demo.text Demo.world
          = (Ok (), s1, Demo.world)
          ∧ determine_result Demo.lib s1 Demo.world
            = (Ok (),
               set_reason (Some "macro downloads a file") (set_result malicious s1),
               Demo.world).
Proof.
  assert (has_attr "rule_results" Demo.text = false) as Hnone
    by (vm_compute; reflexivity).
  split; [exact Hnone|].
  destruct (determine_result_aggregates Demo.lib
              (mkRuleResult clean "known good sender")
              [ mkRuleResult malicious "macro downloads a file";
                mkRuleResult suspicious "unusual extension" ]
              Demo.text Demo.world Hnone)
    as (s1 & Hadd & _ & _ & Hrun & Hlast).
  exists s1. split; [exact Hadd|].
  rewrite Hrun.
  rewrite (Hlast [mkRuleResult clean "known good sender"]
             (mkRuleResult malicious "macro downloads a file")
             [mkRuleResult suspicious "unusual extension"]).
  - reflexivity.
  - reflexivity.
  - intros u Hu. apply list_elem_of_singleton in Hu as ->. simpl. lia.
  - intros u Hu. apply list_elem_of_singleton in Hu as ->. simpl. lia.
  - vm_compute. discriminate.
Defined.

Lemma mimetypes_smime_signature_witness :
  has_attr "mimetypes" Demo.signature = false
  ∧ declared_name Demo.signature = VStr "smime.p7s"
  ∧ s_attributes Demo.signature !! "meta_info_type_declared"
    = Some (VStr "application/pkcs7-signature")
  ∧ "application/pkcs7-signature" ∈ leave_alone_types_p7s
  ∧ ∃ s',
      mimetypes Demo.lib Demo.signature Demo.world
      = (Ok (VMimes {[AStr "application/pkcs7-signature"]}), s',
         record (EvLog Info
                   "S/MIME signature detected. Using declared MIME type over detected ones.")
           Demo.world)
      ∧ mimetypes Demo.lib s' Demo.later
        = (Ok (VMimes {[AStr "application/pkcs7-signature"]}), s', Demo.later).
Proof.
  assert (has_attr "mimetypes" Demo.signature = false) as H1
    by (vm_compute; reflexivity).
  assert (declared_name Demo.signature = VStr "smime.p7s") as H2
    by (vm_compute; reflexivity).
  assert (s_attributes Demo.signature !! "meta_info_type_declared"
          = Some (VStr "application/pkcs7-signature")) as H3
    by (vm_compute; reflexivity).
  assert ("application/pkcs7-signature" ∈ leave_alone_types_p7s) as H4
    by apply list_elem_of_here.
  split; [exact H1|]. split; [exact H2|]. split; [exact H3|]. split; [exact H4|].
  destruct (mimetypes_smime_signature Demo.lib Demo.signature Demo.world _
              H1 H2 H3 H4) as [Hfirst Hagain].
  eexists. split; [exact Hfirst|exact (Hagain Demo.later)].
Defined.

Lemma mimetypes_general_witness :
  has_attr "mimetypes" Demo.text = false
  ∧ smime_exception Demo.text = false
  ∧ hashable (declared_type Demo.text) = true
  ∧ ∃ s' w', mimetypes Demo.lib Demo.text Demo.world
             = (Ok (VMimes ({[AStr "text/plain"]}
                            ∪ {[AStr "application/octet-stream"]} ∪ ∅)), s', w')
             ∧ w_trace w' = [EvMagic "/tmp/p001"; EvGuessName (VStr "a.txt")].
Proof.
  assert (has_attr "mimetypes" Demo.text = false) as H1
    by (vm_compute; reflexivity).
  assert (smime_exception Demo.text = false) as H2
    by (vm_compute; reflexivity).
  assert (hashable (declared_type Demo.text) = true) as H3
    by (vm_compute; reflexivity).
  split; [exact H1|]. split; [exact H2|]. split; [exact H3|].
  eexists _, _. split.
  - exact (proj1 (mimetypes_general Demo.lib Demo.text Demo.world H1 H2 H3)).
  - reflexivity.
Defined.



Lemma init_idempotent_witness :
  ∃ s1 w1, init Demo.lib Demo.text Demo.world = (Ok (), s1, w1)
           ∧ s_wd s1 = Some "/tmp/job0job1"
           ∧ init Demo.lib s1 Demo.later = (Ok (), s1, Demo.later).
Proof.
  eexists _, _. split; [vm_compute; reflexivity|].
  split; [reflexivity|].
  eapply (init_idempotent Demo.lib Demo.text Demo.world).
  vm_compute. reflexivity.
Defined.


Lemma send_failures_are_swallowed_witness :
  (∀ k, w_send_errno Demo.world k = Some EPIPE)
  ∧ s_attributes Demo.judged !! "rule_results" = Some (VRules Demo.verdicts)
  ∧ ∃ s' w',
      report Demo.lib Demo.judged Demo.world = (Ok (), s', w')
      ∧ s_report s'
        = s_report Demo.judged
          ++ (verdict_line Demo.lib (s_filename Demo.judged) <$> Demo.verdicts)
          ++ [final_line (s_filename Demo.judged) malicious].
Proof.
  split; [reflexivity|].
  assert (s_attributes Demo.judged !! "rule_results" = Some (VRules Demo.verdicts))
    as Hverdicts by (vm_compute; reflexivity).
  split; [exact Hverdicts|].
  exact (proj2 (proj2 (send_failures_are_swallowed Demo.lib "" Demo.judged Demo.world))
           Demo.verdicts Hverdicts).
Defined.

(** ** Further properties of the class *)

Section Further.

Context (lib : Library).

(** *** Construction *)




(** *** More on the aggregation of verdicts *)

Lemma aggregate_snoc held vs v :
  aggregate held (vs ++ [v]) = aggregate_step (aggregate held vs) v.
Proof. unfold aggregate. by rewrite foldl_app. Qed.

(** The held severity only grows, and ends above every verdict. *)
Lemma aggregate_dominates vs : ∀ held,
  Result_value held.1 ≤ Result_value (aggregate held vs).1
  ∧ ∀ u, u ∈ vs → Result_value (result u) ≤ Result_value (aggregate held vs).1.
Proof.
  induction vs as [|v vs IH] using rev_ind; intros held.
  - split; [done|]. intros u Hu. by apply elem_of_nil in Hu.
  - rewrite aggregate_snoc. destruct (IH held) as [Hheld Hall].
    unfold aggregate_step, Result_ge.
    destruct (Z.leb_spec (Result_value (aggregate held vs).1)
                (Result_value (result v))) as [Hle|Hlt]; simpl.
    + split; [lia|]. intros u Hu. apply elem_of_app in Hu as [Hu|Hu].
      * specialize (Hall u Hu). lia.
      * apply list_elem_of_singleton in Hu as ->. done.
    + split; [done|]. intros u Hu. apply elem_of_app in Hu as [Hu|Hu].
      * by apply Hall.
      * apply list_elem_of_singleton in Hu as ->. lia.
Qed.

(** The pair that comes out is the pair that went in or the pair of one of
    the verdicts. *)
Lemma aggregate_pair vs : ∀ held,
  aggregate held vs = held
  ∨ ∃ u, u ∈ vs ∧ aggregate held vs = (result u, Some (reason u)).
Proof.
  induction vs as [|v vs IH] using rev_ind; intros held; [by left|].
  rewrite aggregate_snoc. unfold aggregate_step.
  destruct (Result_ge (result v) (aggregate held vs).1).
  - right. exists v. split; [|done]. apply elem_of_app. right. by left.
  - destruct (IH held) as [Hsame|(u & Hu & Hagg)]; [by left|].
    right. exists u. split; [|done]. apply elem_of_app. by left.
Qed.

(** Aggregating again from the outcome changes nothing. *)
Lemma aggregate_idempotent vs : ∀ held,
  aggregate (aggregate held vs) vs = aggregate held vs.
Proof.
  induction vs as [|v vs IH] using rev_ind; intros held; [done|].
  rewrite !aggregate_snoc.
  destruct (aggregate_dominates vs held) as [_ Hall].
  unfold aggregate_step at 2 3.
  destruct (Result_ge (result v) (aggregate held vs).1) eqn:Hge.
  - assert (Result_value (aggregate (result v, Some (reason v)) vs).1
            ≤ Result_value (result v)) as Hb.
    { apply aggregate_bounded; [done|]. intros u Hu. specialize (Hall u Hu).
      unfold Result_ge in Hge. apply Z.leb_le in Hge. lia. }
    unfold aggregate_step.
    assert (Result_ge (result v) (aggregate (result v, Some (reason v)) vs).1
            = true) as ->; [|done].
    unfold Result_ge. by apply Z.leb_le.
  - rewrite IH. unfold aggregate_step. by rewrite Hge.
Qed.

(** X2. [determine_result] never lowers the held severity; the severity it
    leaves is at least that of every verdict; and the pair it leaves is the
    pair it found or the severity and the reason of one and the same
    verdict: the reason belongs to the result. *)
Theorem determine_result_monotone (vs : list RuleResult) (s : Sample) (w : World) :
  s_attributes s !! "rule_results" = Some (VRules vs) →
  ∃ s1, determine_result lib s w = (Ok (), s1, w)
    ∧ Result_value (get_result s) ≤ Result_value (get_result s1)
    ∧ (∀ u, u ∈ vs → Result_value (result u) ≤ Result_value (get_result s1))
    ∧ ((get_result s1, get_reason s1) = (get_result s, get_reason s)
       ∨ ∃ u, u ∈ vs ∧ (get_result s1, get_reason s1) = (result u, Some (reason u))).
Proof.
  intros H. eexists. split; [by apply determine_result_fold|].
  unfold get_result, get_reason. simpl.
  destruct (aggregate_dominates vs (s_result s, s_reason s)) as [Hheld Hall].
  split; [done|]. split; [done|].
  destruct (aggregate_pair vs (s_result s, s_reason s)) as [->|(u & Hu & ->)];
    [by left|right; by exists u].
Qed.

(** X3. [determine_result] is idempotent: running it a second time returns
    normally and leaves the sample as the first run left it. *)
Theorem determine_result_idempotent (vs : list RuleResult) (s : Sample) (w : World) :
  s_attributes s !! "rule_results" = Some (VRules vs) →
  ∃ s1, determine_result lib s w = (Ok (), s1, w)
    ∧ determine_result lib s1 w = (Ok (), s1, w).
Proof.
  intros H. eexists. split; [by apply determine_result_fold|].
  rewrite (determine_result_fold lib vs); [|done]. simpl.
  rewrite <- surjective_pairing, aggregate_idempotent. by destruct s.
Qed.

(** *** What a computation leaves alone *)

(** A computation that leaves a part of the sample, or of the world, as it
    found it, whether it returns or raises. *)
Definition keeps_s {A B} (f : Sample → B) (c : M A) : Prop :=
  ∀ s w, f (c s w).1.2 = f s.

Definition keeps_w {A B} (g : World → B) (c : M A) : Prop :=
  ∀ s w, g (c s w).2 = g w.

Lemma ks_ret {A B} (f : Sample → B) (a : A) : keeps_s f (ret a).
Proof. done. Qed.
Lemma ks_raise {A B} (f : Sample → B) e : keeps_s f (@raise A e).
Proof. done. Qed.
Lemma ks_gets {A B} (f : Sample → B) (h : Sample → A) : keeps_s f (gets h).
Proof. done. Qed.
Lemma ks_ask {A B} (f : Sample → B) (h : World → A) : keeps_s f (ask h).
Proof. done. Qed.
Lemma ks_io {B} (f : Sample → B) h : keeps_s f (io h).
Proof. done. Qed.
Lemma ks_modify {B} (f : Sample → B) h :
  (∀ s, f (h s) = f s) → keeps_s f (modify h).
Proof. intros H s w. apply H. Qed.

Lemma ks_bind {A A' B} (f : Sample → B) (c : M A) (k : A → M A') :
  keeps_s f c → (∀ a, keeps_s f (k a)) → keeps_s f (bind c k).
Proof.
  intros Hc Hk s w. unfold bind. specialize (Hc s w).
  destruct (c s w) as [[[a|e] s'] w']; simpl in *; [|done].
  by rewrite Hk.
Qed.

Lemma ks_try {A B} (f : Sample → B) (c : M A) handler :
  keeps_s f c → (∀ e h, handler e = Some h → keeps_s f h) →
  keeps_s f (try_except c handler).
Proof.
  intros Hc Hh s w. unfold try_except. specialize (Hc s w).
  destruct (c s w) as [[[a|e] s'] w']; simpl in *; [done|].
  destruct (handler e) as [h|] eqn:He; [|done].
  by rewrite (Hh e h He).
Qed.

Lemma kw_ret {A B} (g : World → B) (a : A) : keeps_w g (ret a).
Proof. done. Qed.
Lemma kw_raise {A B} (g : World → B) e : keeps_w g (@raise A e).
Proof. done. Qed.
Lemma kw_gets {A B} (g : World → B) (h : Sample → A) : keeps_w g (gets h).
Proof. done. Qed.
Lemma kw_ask {A B} (g : World → B) (h : World → A) : keeps_w g (ask h).
Proof. done. Qed.
Lemma kw_modify {B} (g : World → B) h : keeps_w g (modify h).
Proof. done. Qed.
Lemma kw_io {B} (g : World → B) h :
  (∀ w, g (h w) = g w) → keeps_w g (io h).
Proof. intros H s w. apply H. Qed.

Lemma kw_bind {A A' B} (g : World → B) (c : M A) (k : A → M A') :
  keeps_w g c → (∀ a, keeps_w g (k a)) → keeps_w g (bind c k).
Proof.
  intros Hc Hk s w. unfold bind. specialize (Hc s w).
  destruct (c s w) as [[[a|e] s'] w']; simpl in *; [|done].
  by rewrite Hk.
Qed.

Lemma kw_try {A B} (g : World → B) (c : M A) handler :
  keeps_w g c → (∀ e h, handler e = Some h → keeps_w g h) →
  keeps_w g (try_except c handler).
Proof.
  intros Hc Hh s w. unfold try_except. specialize (Hc s w).
  destruct (c s w) as [[[a|e] s'] w']; simpl in *; [done|].
  destruct (handler e) as [h|] eqn:He; [|done].
  by rewrite (Hh e h He).
Qed.

Lemma sent_messages_app t1 t2 :
  sent_messages (t1 ++ t2) = sent_messages t1 ++ sent_messages t2.
Proof. apply omap_app. Qed.

Create HintDb kept discriminated.

(** Side conditions: the setter or the event at hand does not reach the
    part that is observed. *)
Ltac untouched :=
  solve [ intros;
          repeat match goal with
                 | s : Sample |- _ => destruct s
                 | w : World |- _ => destruct w
                 end;
          simpl; rewrite ?sent_messages_app; simpl;
          rewrite ?lookup_insert_ne by done; rewrite ?app_nil_r; done ].

Ltac kept :=
  repeat first
    [ solve [auto with kept nocore]
    | apply ks_ret | apply ks_raise | apply ks_gets | apply ks_ask | apply ks_io
    | apply kw_ret | apply kw_raise | apply kw_gets | apply kw_ask
    | apply kw_modify
    | apply ks_modify; untouched
    | apply kw_io; untouched
    | apply ks_bind; [|intros ?]
    | apply kw_bind; [|intros ?]
    | apply ks_try; [|intros [] ? ?; simplify_eq]
    | apply kw_try; [|intros [] ? ?; simplify_eq]
    | match goal with
      | |- keeps_s _ (if ?b then _ else _) => destruct b
      | |- keeps_s _ (match ?x with _ => _ end) => destruct x
      | |- keeps_w _ (if ?b then _ else _) => destruct b
      | |- keeps_w _ (match ?x with _ => _ end) => destruct x
      end
    | progress unfold splitext_1_1, getattr_st_size, set_add, list_append,
        item_result, item_reason, iterate, create_entry ].

(** The loop of [mkdtemp] leaves every part of the sample alone. *)
Lemma ks_mkdtemp {B} (f : Sample → B) fuel prefix dir :
  keeps_s f (mkdtemp_try fuel prefix dir).
Proof.
  induction fuel as [|fuel IH]; simpl; [kept|].
  apply ks_bind; [kept|]. intros name. apply ks_try; [kept|].
  intros [] h; try done. destruct (errno =? EEXIST); [|done]. by intros [= <-].
Qed.

Lemma kw_mkdtemp {B} (g : World → B) fuel prefix dir :
  (∀ n w, g (set_w_drawn n w) = g w) →
  (∀ e w, (∀ msg answer, e ≠ EvSend msg answer) → g (record e w) = g w) →
  (∀ fs w, g (set_w_fs fs w) = g w) →
  keeps_w g (mkdtemp_try fuel prefix dir).
Proof.
  intros Hdrawn Hrecord Hfs.
  induction fuel as [|fuel IH]; simpl; [kept|].
  apply kw_bind.
  { unfold draw. apply kw_bind; [kept|]. intros ?. apply kw_bind; [|kept].
    apply kw_io. intros w. apply Hdrawn. }
  intros name. apply kw_try.
  - apply kw_bind; [|kept]. unfold os_mkdir. apply kw_bind.
    + apply kw_io. intros w. by apply Hrecord.
    + intros _. unfold create_entry. apply kw_bind; [kept|]. intros fs.
      destruct (fs !! _); [kept|].
      destruct (follow _ _ _) as [?|[| |]]; kept.
      all: apply kw_io; intros w; apply Hfs.
  - intros [] h; try done. destruct (errno =? EEXIST); [|done]. by intros [= <-].
Qed.

(** *** Initialisation, step by step *)

Lemma file_extension_known s w :
  file_extension s w
  = match known_extension s with
    | Ok v => (Ok v, set_attributes (<["file_extension" := v]> (s_attributes s)) s, w)
    | Raise e => (Raise e, s, w)
    end.
Proof.
  unfold file_extension, known_extension, declared_name. rewrite bind_gets.
  destruct (s_attributes s !! "file_extension") as [v|] eqn:Hext.
  - rewrite (has_attr_Some _ _ _ Hext). cbv iota.
    rewrite (get_attr_Some _ _ _ _ Hext).
    by rewrite (insert_id _ _ _ Hext), set_attributes_id.
  - rewrite (proj1 (has_attr_None _ _) Hext). cbv iota. rewrite !bind_gets.
    destruct (s_attributes s !! "meta_info_name_declared") as [n|] eqn:Hn.
    + rewrite (has_attr_Some _ _ _ Hn). cbv iota.
      erewrite bind_Ok by (by apply get_attr_Some).
      destruct n as [[|name| |]| |]; try reflexivity.
      unfold splitext_1_1. rewrite bind_ret.
      by erewrite bind_Ok by apply set_attr_override.
    + rewrite (proj1 (has_attr_None _ _) Hn). cbv iota. rewrite bind_ret.
      unfold splitext_1_1, VStr. rewrite bind_ret.
      by erewrite bind_Ok by apply set_attr_override.
Qed.

(** The two parts of [init] after the extension is known: the working
    directory with its symlink, and the flag with the lines of the report. *)
Definition init_workdir (path : string) (file_ext : value) : M unit :=
  if truthy file_ext then
    prefix <- get_job_hash ;;
    base_dir <- gets s_base_dir ;;
    wd <- tempfile_mkdtemp prefix base_dir ;;
    modify (set_wd (Some wd)) ;;;
    sha <- sha256sum lib ;;
    let submit_path := PyStr.join wd (py_str lib sha +:+ "." +:+ py_str lib file_ext) in
    modify (set_submit_path (Some submit_path)) ;;;
    os_symlink path submit_path
  else ret ().

Definition init_report : M unit :=
  modify (set_initialized true) ;;;
  filename <- gets s_filename ;;
  sha <- sha256sum lib ;;
  let message := "Datei " +:+ dquote +:+ filename +:+ dquote +:+ " "
                 +:+ py_str lib sha +:+ " wird analysiert" +:+ nl in
  report_append message ;;;
  send_message message ;;;
  named <- gets (has_attr "meta_info_name_declared") ;;
  (if named then
     name <- get_attr "meta_info_name_declared" ;;
     report_append ("meta info: name_declared: " +:+ py_str lib name +:+ nl)
   else ret ()) ;;;
  typed <- gets (has_attr "meta_info_type_declared") ;;
  (if typed then
     type <- get_attr "meta_info_type_declared" ;;
     report_append ("meta info: type_declared: " +:+ py_str lib type +:+ nl)
   else ret ()).

Lemma init_steps s w :
  initialized s = false →
  init lib s w
  = (file_ext <- file_extension ;;
     init_workdir (s_path s) file_ext ;;;
     init_report) (set_submit_path (Some (s_path s)) s) w.
Proof. intros H. unfold init. by rewrite bind_gets, H. Qed.

Lemma send_message_sent msg s w :
  ∃ w', send_message msg s w = (Ok (), s, w')
    ∧ sent_messages (w_trace w')
      = sent_messages (w_trace w) ++ to_socket s [msg]
    ∧ w_fs w' = w_fs w.
Proof.
  unfold send_message, to_socket. rewrite bind_gets. destruct (s_socket s).
  - unfold try_except, socket_send. rewrite bind_ask, bind_io.
    destruct (w_send_errno w (w_sends w)) as [errno|]; simpl.
    + destruct (errno =? EPIPE); eexists; (split; [reflexivity|]); simpl;
        rewrite !sent_messages_app; simpl; by rewrite app_nil_r.
    + eexists. split; [reflexivity|]. simpl. by rewrite sent_messages_app.
  - exists w. by rewrite app_nil_r.
Qed.

(** A line for an attribute, written when the attribute is there. *)
Lemma guarded_line key (label : string) s w :
  (if has_attr key s
   then x <- get_attr key ;; report_append (label +:+ py_str lib x +:+ nl)
   else ret ()) s w
  = (Ok (),
     set_report (s_report s ++ match s_attributes s !! key with
                               | Some x => [label +:+ py_str lib x +:+ nl]
                               | None => []
                               end) s, w).
Proof.
  destruct (s_attributes s !! key) as [x|] eqn:Hx.
  - rewrite (has_attr_Some _ _ _ Hx).
    by erewrite bind_Ok by (by apply get_attr_Some).
  - rewrite (proj1 (has_attr_None _ _) Hx). unfold ret.
    rewrite app_nil_r. by destruct s.
Qed.

(** What the second part of [init] does once the hash is there. *)
Lemma init_report_run s w :
  match sha256sum lib (set_initialized true s) w with
  | (Ok sha, sd, wd) =>
      ∃ w1, init_report s w
            = (Ok (),
               set_report (s_report sd ++ analysis_line lib (s_filename sd) sha
                                          :: meta_lines lib sd) sd, w1)
        ∧ sent_messages (w_trace w1)
          = sent_messages (w_trace wd)
            ++ to_socket sd [analysis_line lib (s_filename sd) sha]
        ∧ w_fs w1 = w_fs wd
  | (Raise e, sd, wd) => init_report s w = (Raise e, sd, wd)
  end.
Proof.
  unfold init_report. rewrite bind_modify, bind_gets.
  destruct (sha256sum lib (set_initialized true s) w) as [[[sha|e] sd] wd] eqn:Hsha;
    [|by erewrite bind_Raise].
  erewrite bind_Ok by exact Hsha.
  change (s_filename (set_initialized true s)) with (s_filename s).
  assert (s_filename sd = s_filename s) as Hname.
  { assert (keeps_s s_filename (sha256sum lib)) as Hk
      by (unfold sha256sum; kept).
    specialize (Hk (set_initialized true s) w). by rewrite Hsha in Hk. }
  unfold report_append at 1. rewrite bind_modify.
  destruct (send_message_sent (analysis_line lib (s_filename s) sha)
              (set_report (s_report sd ++ [analysis_line lib (s_filename s) sha]) sd)
              wd) as (w1 & Hsend & Hsent & Hfs).
  exists w1. split; [|by rewrite Hname].
  erewrite bind_Ok by exact Hsend. rewrite bind_gets.
  erewrite bind_Ok by apply (guarded_line "meta_info_name_declared").
  rewrite bind_gets, (guarded_line "meta_info_type_declared").
  unfold meta_lines. simpl. rewrite Hname.
  by rewrite <- !app_assoc.
Qed.

Lemma bind_Raise_inv {A B} (c : M A) (k : A → M B) s w e s1 w1 :
  bind c k s w = (Raise e, s1, w1) →
  c s w = (Raise e, s1, w1)
  ∨ ∃ a s' w', c s w = (Ok a, s', w') ∧ k a s' w' = (Raise e, s1, w1).
Proof.
  unfold bind. destruct (c s w) as [[[a|e'] s'] w'] eqn:Hc.
  - intros H. right. by exists a, s', w'.
  - intros [= -> -> ->]. by left.
Qed.

Lemma ks_tempfile_mkdtemp {B} (f : Sample → B) prefix dir :
  keeps_s f (tempfile_mkdtemp prefix dir).
Proof. apply ks_mkdtemp. Qed.

Lemma kw_sent_tempfile_mkdtemp prefix dir :
  keeps_w (λ w, sent_messages (w_trace w)) (tempfile_mkdtemp prefix dir).
Proof.
  apply kw_mkdtemp; [done| |done].
  intros e w He. simpl. rewrite sent_messages_app.
  destruct e; simpl; try by rewrite app_nil_r. by destruct (He msg failure).
Qed.

Local Hint Resolve ks_tempfile_mkdtemp kw_sent_tempfile_mkdtemp : kept.

(** What [init] writes into the report depends on these parts of the
    sample, and the flag is kept apart. *)
Definition preamble_view (s : Sample) :=
  (s_report s, s_filename s, s_socket s,
   s_attributes s !! "meta_info_name_declared",
   s_attributes s !! "meta_info_type_declared").

Lemma file_extension_frame :
  keeps_s preamble_view file_extension ∧ keeps_s initialized file_extension
  ∧ keeps_w (λ w, sent_messages (w_trace w)) file_extension
  ∧ keeps_w w_fs file_extension.
Proof. unfold file_extension, preamble_view. repeat split; kept. Qed.

Lemma sha256sum_frame :
  keeps_s preamble_view (sha256sum lib) ∧ keeps_s initialized (sha256sum lib)
  ∧ keeps_s (λ s, (s_wd s, s_submit_path s)) (sha256sum lib)
  ∧ keeps_w (λ w, sent_messages (w_trace w)) (sha256sum lib)
  ∧ keeps_w w_fs (sha256sum lib).
Proof. unfold sha256sum, preamble_view. repeat split; kept. Qed.

Lemma init_workdir_frame path file_ext :
  keeps_s preamble_view (init_workdir path file_ext)
  ∧ keeps_s initialized (init_workdir path file_ext)
  ∧ keeps_w (λ w, sent_messages (w_trace w)) (init_workdir path file_ext).
Proof.
  destruct sha256sum_frame as (H1 & H2 & _ & H3 & _).
  unfold init_workdir, preamble_view in *. repeat split; kept.
Qed.

Lemma sha256sum_raises s w e s1 w1 :
  sha256sum lib s w = (Raise e, s1, w1) → ∃ errno, e = IOError errno.
Proof.
  unfold sha256sum. rewrite bind_gets.
  destruct (has_attr "sha256sum" s) eqn:Hhas; simpl.
  - apply has_attr_true in Hhas as [v Hv]. by rewrite (get_attr_Some _ _ _ _ Hv).
  - rewrite bind_gets. intros H.
    apply bind_Raise_inv in H as [H|(content & s' & w' & _ & H)].
    + revert H. unfold open_read. rewrite bind_io, bind_ask.
      destruct (follow _ _ _) as [?|[| |]]; intros [= <- _ _]; eauto.
    + by erewrite bind_Ok in H by apply set_attr_override.
Qed.

(** X4. Without a file extension [init] provisions nothing: whatever its
    outcome, the sample has no new working directory, the submit path is
    the path of the file, and the file system is as it was. The flag
    [initialized] is set all the same. *)
Theorem init_without_extension (s : Sample) (w : World) (file_ext : value)
    (r : outcome unit) (s1 : Sample) (w1 : World) :
  initialized s = false →
  known_extension s = Ok file_ext →
  truthy file_ext = false →
  init lib s w = (r, s1, w1) →
  s_wd s1 = s_wd s ∧ s_submit_path s1 = Some (s_path s)
  ∧ w_fs w1 = w_fs w ∧ initialized s1 = true.
Proof.
  intros Hflag Hext Hfalsy. rewrite (init_steps _ _ Hflag).
  erewrite bind_Ok;
    [|rewrite file_extension_known;
      change (known_extension (set_submit_path _ s)) with (known_extension s);
      by rewrite Hext].
  unfold init_workdir. rewrite Hfalsy, bind_ret.
  set (sb := set_attributes _ _). intros Hrun.
  destruct sha256sum_frame as (_ & Hinit & Hdirs & _ & Hfs).
  specialize (Hinit (set_initialized true sb) w).
  specialize (Hdirs (set_initialized true sb) w).
  specialize (Hfs (set_initialized true sb) w).
  pose proof (init_report_run sb w) as Hreport.
  destruct (sha256sum lib (set_initialized true sb) w) as [[[sha|e] sd] wd].
  - destruct Hreport as (w' & Hreport & _ & Hfs').
    rewrite Hreport in Hrun. injection Hrun as _ <- <-.
    simpl in *. injection Hdirs as -> ->. by rewrite Hfs', Hfs.
  - rewrite Hreport in Hrun. injection Hrun as _ <- <-.
    simpl in *. by injection Hdirs as -> ->.
Qed.

(** *** The file system only grows *)

(** A computation that removes and overwrites no entry of the file
    system. *)
Definition grows {A} (c : M A) : Prop :=
  ∀ s w, w_fs w ⊆ w_fs (c s w).2.

Lemma grows_keeps {A} (c : M A) : keeps_w w_fs c → grows c.
Proof. intros H s w. by rewrite H. Qed.

Lemma grows_bind {A B} (c : M A) (k : A → M B) :
  grows c → (∀ a, grows (k a)) → grows (bind c k).
Proof.
  intros Hc Hk s w. unfold bind. specialize (Hc s w).
  destruct (c s w) as [[[a|e] s'] w']; simpl in *; [|done].
  etrans; [exact Hc|apply Hk].
Qed.

Lemma grows_try {A} (c : M A) handler :
  grows c → (∀ e h, handler e = Some h → grows h) →
  grows (try_except c handler).
Proof.
  intros Hc Hh s w. unfold try_except. specialize (Hc s w).
  destruct (c s w) as [[[a|e] s'] w']; simpl in *; [done|].
  destruct (handler e) as [h|] eqn:He; [|done].
  etrans; [exact Hc|by apply (Hh e h He)].
Qed.

Lemma grows_create_entry path nd : grows (create_entry path nd).
Proof.
  intros s w. rewrite create_entry_run. unfold creatable.
  destruct (w_fs w !! path) eqn:Hfree; [done|].
  destruct (follow _ _ _) as [?|[| |]]; try done.
  simpl. by apply insert_subseteq.
Qed.

Lemma grows_os_mkdir path : grows (os_mkdir path).
Proof.
  unfold os_mkdir. apply grows_bind; [apply grows_keeps; kept|].
  intros _. apply grows_create_entry.
Qed.

Lemma grows_os_symlink src dst : grows (os_symlink src dst).
Proof.
  unfold os_symlink. apply grows_bind; [apply grows_keeps; kept|].
  intros _. apply grows_create_entry.
Qed.

Lemma grows_mkdtemp fuel prefix dir : grows (mkdtemp_try fuel prefix dir).
Proof.
  induction fuel as [|fuel IH]; simpl; [apply grows_keeps; kept|].
  apply grows_bind; [apply grows_keeps; unfold draw; kept|]. intros name.
  apply grows_try.
  - apply grows_bind; [apply grows_os_mkdir|]. intros _. apply grows_keeps. kept.
  - intros [] h; try done. destruct (errno =? EEXIST); [|done]. by intros [= <-].
Qed.

Lemma grows_get_job_hash : grows get_job_hash.
Proof.
  unfold get_job_hash.
  apply grows_bind; [apply grows_keeps; kept|]. intros path.
  apply grows_bind; [apply grows_keeps; kept|]. intros regex.
  destruct (String.eqb _ _); [|apply grows_keeps; kept].
  apply grows_bind; [apply grows_keeps; unfold next_job_hash, draw; kept|].
  intros job_hash.
  apply grows_bind; [apply grows_keeps; kept|]. intros base_dir.
  apply grows_bind; [apply grows_os_mkdir|]. intros _. apply grows_keeps. kept.
Qed.

Lemma grows_init_workdir path file_ext : grows (init_workdir path file_ext).
Proof.
  destruct sha256sum_frame as (_ & _ & _ & _ & Hsha).
  unfold init_workdir. destruct (truthy file_ext); [|apply grows_keeps; kept].
  apply grows_bind; [apply grows_get_job_hash|]. intros prefix.
  apply grows_bind; [apply grows_keeps; kept|]. intros base_dir.
  apply grows_bind; [apply grows_mkdtemp|]. intros wd.
  apply grows_bind; [apply grows_keeps; kept|]. intros _.
  apply grows_bind; [by apply grows_keeps|]. intros sha.
  apply grows_bind; [apply grows_keeps; kept|]. intros _.
  apply grows_os_symlink.
Qed.

Lemma init_report_keeps_fs : keeps_w w_fs init_report.
Proof.
  intros s w. pose proof (init_report_run s w) as H.
  destruct sha256sum_frame as (_ & _ & _ & _ & Hfs).
  specialize (Hfs (set_initialized true s) w).
  destruct (sha256sum lib (set_initialized true s) w) as [[[sha|e] sd] wd].
  - destruct H as (w1 & -> & _ & Hfs1). simpl in *. by rewrite Hfs1.
  - by rewrite H.
Qed.

(** X5. [init] and [get_job_hash] only add to the file system: whatever
    their outcome, every entry that was there is still there, unchanged. *)
Theorem init_only_adds_entries (s : Sample) (w : World) (p : string) (nd : node) :
  w_fs w !! p = Some nd →
  w_fs (init lib s w).2 !! p = Some nd
  ∧ w_fs (get_job_hash s w).2 !! p = Some nd.
Proof.
  intros Hp. split.
  - eapply lookup_weaken; [exact Hp|].
    destruct (initialized s) eqn:Hflag.
    + by rewrite init_when_initialized.
    + rewrite (init_steps _ _ Hflag).
      apply (grows_bind file_extension); [apply grows_keeps; apply file_extension_frame|].
      intros file_ext. apply grows_bind; [apply grows_init_workdir|].
      intros _. apply grows_keeps, init_report_keeps_fs.
  - eapply lookup_weaken; [exact Hp|]. apply grows_get_job_hash.
Qed.

(** *** The working directory *)

Lemma os_mkdir_run path s w :
  os_mkdir path s w
  = if creatable (w_fs w) path
    then (Ok (), s, set_w_fs (<[path := Dir]> (w_fs w)) (record (EvMkdir path) w))
    else (Raise (OSError match w_fs w !! path with
                         | Some _ => EEXIST
                         | None =>
                             match follow MAXSYMLINKS (w_fs w) (PyStr.dirname path) with
                             | inl errno => errno
                             | inr _ => ENOTDIR
                             end
                         end), s, record (EvMkdir path) w).
Proof. unfold os_mkdir. by rewrite bind_io, create_entry_run. Qed.

Lemma os_symlink_Ok src dst s w s' w' :
  os_symlink src dst s w = (Ok (), s', w') →
  s' = s ∧ w_fs w !! dst = None ∧ w_fs w' = <[dst := Symlink src]> (w_fs w).
Proof.
  unfold os_symlink. rewrite bind_io, create_entry_run.
  change (w_fs (record _ w)) with (w_fs w). unfold creatable.
  destruct (w_fs w !! dst); [done|].
  destruct (follow MAXSYMLINKS _ _) as [?|[| |]]; try done. by intros [= <- <-].
Qed.

Lemma mkdtemp_Ok fuel prefix dir : ∀ s w wd s' w',
  mkdtemp_try fuel prefix dir s w = (Ok wd, s', w') →
  s' = s ∧ w_fs w' !! wd = Some Dir.
Proof.
  induction fuel as [|fuel IH]; intros s w wd s' w'; simpl; [done|].
  erewrite bind_Ok by reflexivity. unfold try_except.
  set (file := PyStr.join dir (prefix +:+ w_random w (w_drawn w))).
  unfold bind at 1. rewrite os_mkdir_run.
  destruct (creatable _ file).
  - intros [= <- <- <-]. split; [done|]. simpl. apply lookup_insert_eq.
  - destruct (_ =? EEXIST); [apply IH|done].
Qed.

Lemma get_job_hash_sample s w : (get_job_hash s w).1.2 = s.
Proof.
  assert (keeps_s id get_job_hash) as H by (unfold get_job_hash; kept).
  apply H.
Qed.

(** X6. When [init] completes for a sample with a file extension, the
    sample has a working directory that exists as a directory, its hash is
    cached, its submit path is [<hash>.<extension>] joined to the working
    directory, and at the submit path there is a symbolic link to the
    file. *)
Theorem init_with_extension (s : Sample) (w : World) (file_ext : value)
    (s1 : Sample) (w1 : World) :
  initialized s = false →
  known_extension s = Ok file_ext →
  truthy file_ext = true →
  init lib s w = (Ok (), s1, w1) →
  ∃ wd sha,
    s_wd s1 = Some wd
    ∧ s_attributes s1 !! "sha256sum" = Some sha
    ∧ s_submit_path s1
      = Some (PyStr.join wd (py_str lib sha +:+ "." +:+ py_str lib file_ext))
    ∧ w_fs w1 !! wd = Some Dir
    ∧ w_fs w1 !! PyStr.join wd (py_str lib sha +:+ "." +:+ py_str lib file_ext)
      = Some (Symlink (s_path s)).
Proof.
  intros Hflag Hext Htruthy. rewrite (init_steps _ _ Hflag).
  erewrite bind_Ok;
    [|rewrite file_extension_known;
      change (known_extension (set_submit_path _ s)) with (known_extension s);
      by rewrite Hext].
  set (sb := set_attributes _ _). intros Hrun.
  apply bind_Ok_inv in Hrun as ([] & sc & wc & Hwork & Hreport).
  unfold init_workdir in Hwork. rewrite Htruthy in Hwork.
  apply bind_Ok_inv in Hwork as (prefix & s2 & w2 & Hjob & Hwork).
  pose proof (get_job_hash_sample sb w) as Hs2. rewrite Hjob in Hs2.
  simpl in Hs2. subst s2. rewrite bind_gets in Hwork.
  apply bind_Ok_inv in Hwork as (wd & s3 & w3 & Htmp & Hwork).
  apply mkdtemp_Ok in Htmp as [-> Hdir]. rewrite bind_modify in Hwork.
  apply bind_Ok_inv in Hwork as (sha & s4 & w4 & Hsha & Hwork).
  rewrite bind_modify in Hwork.
  apply os_symlink_Ok in Hwork as (-> & Hfree & Hlink).
  destruct sha256sum_frame as (_ & _ & Hdirs & _ & Hfs).
  pose proof (Hdirs (set_wd (Some wd) sb) w3) as Hdirs4.
  pose proof (Hfs (set_wd (Some wd) sb) w3) as Hfs4.
  rewrite Hsha in Hdirs4, Hfs4. simpl in Hdirs4, Hfs4.
  apply sha256sum_caches in Hsha as Hcached.
  remember (PyStr.join wd (py_str lib sha +:+ "." +:+ py_str lib file_ext))
    as submit eqn:Hsubmit.
  pose proof (init_report_run (set_submit_path (Some submit) s4) wc) as Hrep.
  rewrite (sha256sum_reads_cache lib _ _ sha) in Hrep by exact Hcached.
  destruct Hrep as (w' & Hrep & _ & Hfs').
  rewrite Hrep in Hreport. injection Hreport as <- <-.
  exists wd, sha. rewrite <- Hsubmit. simpl. injection Hdirs4 as -> _.
  split; [done|]. split; [done|]. split; [done|].
  rewrite Hfs', Hlink, Hfs4. split; [|apply lookup_insert_eq].
  rewrite lookup_insert_ne; [done|]. intros <-.
  rewrite Hfs4 in Hfree. by rewrite Hfree in Hdir.
Qed.

(** *** The report that [init] opens *)

(** X7. When [init] completes on a sample that was not initialised, the
    report has gained the line that names the file and its hash, then the
    line of the declared name and the line of the declared type when
    these attributes are there, in this order. Only the first of these
    lines is handed to the socket; the lines of the meta information are
    appended to the report without being sent. *)
Theorem init_report_preamble (s : Sample) (w : World) (s1 : Sample) (w1 : World) :
  initialized s = false →
  init lib s w = (Ok (), s1, w1) →
  ∃ sha,
    s_attributes s1 !! "sha256sum" = Some sha
    ∧ s_report s1
      = s_report s ++ analysis_line lib (s_filename s) sha :: meta_lines lib s
    ∧ sent_messages (w_trace w1)
      = sent_messages (w_trace w)
        ++ to_socket s [analysis_line lib (s_filename s) sha].
Proof.
  intros Hflag. rewrite (init_steps _ _ Hflag). intros Hrun.
  apply bind_Ok_inv in Hrun as (file_ext & sb & wb & Hext & Hrun).
  apply bind_Ok_inv in Hrun as ([] & sc & wc & Hwork & Hreport).
  destruct file_extension_frame as (Hv1 & _ & Hm1 & _).
  destruct (init_workdir_frame (s_path s) file_ext) as (Hv2 & _ & Hm2).
  destruct sha256sum_frame as (Hv3 & _ & _ & Hm3 & _).
  specialize (Hv1 (set_submit_path (Some (s_path s)) s) w).
  specialize (Hm1 (set_submit_path (Some (s_path s)) s) w).
  rewrite Hext in Hv1, Hm1. specialize (Hv2 sb wb). specialize (Hm2 sb wb).
  rewrite Hwork in Hv2, Hm2.
  specialize (Hv3 (set_initialized true sc) wc).
  specialize (Hm3 (set_initialized true sc) wc).
  pose proof (init_report_run sc wc) as Hrep.
  destruct (sha256sum lib (set_initialized true sc) wc) as [[[sha|e] sd] wd] eqn:Hsha;
    [|by rewrite Hrep in Hreport].
  destruct Hrep as (w' & Hrep & Hsent & _).
  rewrite Hrep in Hreport. injection Hreport as <- <-.
  apply sha256sum_caches in Hsha. exists sha. split; [exact Hsha|].
  cbn [fst snd] in Hv1, Hv2, Hv3, Hm1, Hm2, Hm3.
  change (preamble_view (set_initialized true sc)) with (preamble_view sc) in Hv3.
  change (preamble_view (set_submit_path _ s)) with (preamble_view s) in Hv1.
  rewrite Hv2, Hv1 in Hv3. rewrite Hm2, Hm1 in Hm3.
  unfold preamble_view in Hv3. injection Hv3 as Hreport Hname Hsocket Hn Ht.
  unfold meta_lines, to_socket in *. cbn [s_report set_report].
  rewrite Hsent, Hm3, Hreport, Hname, Hsocket. unfold has_attr, get_attr.
  by rewrite ?Hn, ?Ht.
Qed.

(** X8. A call of [init] that raises leaves the report as it was. Either
    the flag is still unset, so that a later call starts over; or the flag
    is set, the exception is the [IOError] of reading the file for the
    hash, and every later call returns at once: the report of such a sample
    never gets its opening lines. *)
Theorem init_failure (s : Sample) (w : World) (e : exn) (s1 : Sample) (w1 : World) :
  initialized s = false →
  init lib s w = (Raise e, s1, w1) →
  s_report s1 = s_report s
  ∧ (initialized s1 = false
     ∨ (∃ errno, e = IOError errno)
       ∧ ∀ w', init lib s1 w' = (Ok (), s1, w')).
Proof.
  intros Hflag. rewrite (init_steps _ _ Hflag). intros Hrun.
  destruct file_extension_frame as (Hv1 & Hi1 & _ & _).
  specialize (Hv1 (set_submit_path (Some (s_path s)) s) w).
  specialize (Hi1 (set_submit_path (Some (s_path s)) s) w).
  change (preamble_view (set_submit_path _ s)) with (preamble_view s) in Hv1.
  change (initialized (set_submit_path _ s)) with (initialized s) in Hi1.
  apply bind_Raise_inv in Hrun as [Hrun|(file_ext & sb & wb & Hext & Hrun)].
  { rewrite Hrun in Hv1, Hi1. cbn [fst snd] in Hv1, Hi1.
    injection Hv1 as -> _ _ _ _. split; [done|]. left. by rewrite Hi1. }
  rewrite Hext in Hv1, Hi1. cbn [fst snd] in Hv1, Hi1.
  destruct (init_workdir_frame (s_path s) file_ext) as (Hv2 & Hi2 & _).
  specialize (Hv2 sb wb). specialize (Hi2 sb wb).
  apply bind_Raise_inv in Hrun as [Hrun|([] & sc & wc & Hwork & Hrun)].
  { rewrite Hrun in Hv2, Hi2. cbn [fst snd] in Hv2, Hi2. rewrite Hv1 in Hv2.
    injection Hv2 as -> _ _ _ _. split; [done|]. left. by rewrite Hi2, Hi1. }
  rewrite Hwork in Hv2, Hi2. cbn [fst snd] in Hv2, Hi2.
  destruct sha256sum_frame as (Hv3 & Hi3 & _).
  specialize (Hv3 (set_initialized true sc) wc).
  specialize (Hi3 (set_initialized true sc) wc).
  change (preamble_view (set_initialized true sc)) with (preamble_view sc) in Hv3.
  change (initialized (set_initialized true sc)) with true in Hi3.
  pose proof (init_report_run sc wc) as Hrep.
  destruct (sha256sum lib (set_initialized true sc) wc) as [[[sha|e'] sd] wd] eqn:Hsha.
  { destruct Hrep as (w' & Hrep & _). by rewrite Hrep in Hrun. }
  rewrite Hrep in Hrun. injection Hrun as -> -> ->.
  cbn [fst snd] in Hv3, Hi3. rewrite Hv2, Hv1 in Hv3. injection Hv3 as -> _ _ _ _.
  split; [done|]. right. split; [by eapply sha256sum_raises|].
  intros w'. by apply init_when_initialized.
Qed.

(** *** Accesses that fail *)

(** A computation that, when it raises, has left the sample alone. *)
Definition atomic {A} (c : M A) : Prop :=
  ∀ s w e s1 w1, c s w = (Raise e, s1, w1) → s1 = s.

Lemma atomic_keeps {A} (c : M A) : keeps_s id c → atomic c.
Proof. intros H s w e s1 w1 Hc. specialize (H s w). by rewrite Hc in H. Qed.

Lemma atomic_bind {A B} (c : M A) (k : A → M B) :
  keeps_s id c → (∀ a, atomic (k a)) → atomic (x <- c ;; k x).
Proof.
  intros Hc Hk s w e s1 w1 H. specialize (Hc s w).
  apply bind_Raise_inv in H as [H|(a & s2 & w2 & H1 & H2)].
  - by rewrite H in Hc.
  - rewrite H1 in Hc. simpl in Hc. subst s2. by eapply Hk.
Qed.

Lemma atomic_set_attr key v : atomic (set_attr key v true).
Proof. intros s w e s1 w1. by rewrite set_attr_override. Qed.

Lemma atomic_store {A} key v (a : A) : atomic (set_attr key v true ;;; ret a).
Proof. intros s w e s1 w1. by erewrite bind_Ok by apply set_attr_override. Qed.

Ltac atomic :=
  repeat first
    [ progress cbv zeta
    | apply atomic_store | apply atomic_set_attr
    | match goal with
      | |- atomic (if negb ?b then _ else _) => destruct b; simpl negb; cbv iota
      | |- atomic (if ?b then _ else _) => destruct b
      end
    | solve [apply atomic_keeps; kept]
    | apply atomic_bind; [solve [kept]|intros ?] ].

Lemma sha256sum_atomic : atomic (sha256sum lib).
Proof. unfold sha256sum. atomic. Qed.

Lemma file_extension_atomic : atomic file_extension.
Proof. unfold file_extension. atomic. Qed.

Lemma mimetypes_atomic : atomic (mimetypes lib).
Proof. unfold mimetypes. atomic. Qed.

Lemma analyses_time_atomic : atomic analyses_time.
Proof. unfold analyses_time. atomic. Qed.

Lemma office_macros_atomic : atomic office_macros.
Proof.
  intros s w e s1 w1. unfold office_macros. rewrite bind_gets.
  destruct (has_attr "office_macros" s); simpl.
  { rewrite bind_ret. revert s w e s1 w1. fold (atomic (get_attr "office_macros")).
    atomic. }
  intros H. apply bind_Raise_inv in H as [H|([] & s2 & w2 & H1 & H2)].
  - revert H. generalize s w e s1 w1.
    change (atomic (path <- gets s_path ;; macros <- has_office_macros path ;;
                    set_attr "office_macros" (VAtom (ABool macros)) true)).
    atomic.
  - rewrite bind_gets in H1. apply bind_Ok_inv in H1 as (m & s3 & w3 & _ & Hset).
    rewrite set_attr_override in Hset. injection Hset as <- <-.
    by erewrite get_attr_Some in H2 by (simpl; apply lookup_insert_eq).
Qed.

Lemma file_size_atomic : atomic file_size.
Proof.
  intros s w e s1 w1. unfold file_size. rewrite bind_gets.
  destruct (has_attr "file_stat" s); simpl.
  { rewrite bind_ret. revert s w e s1 w1.
    change (atomic (st <- get_attr "file_stat" ;; getattr_st_size st)).
    atomic. }
  intros H. apply bind_Raise_inv in H as [H|([] & s2 & w2 & H1 & H2)].
  - revert H. generalize s w e s1 w1.
    change (atomic (path <- gets s_path ;; st <- os_stat path ;;
                    set_attr "file_stat" (VAtom (AStat st)) true)).
    atomic.
  - rewrite bind_gets in H1. apply bind_Ok_inv in H1 as (st & s3 & w3 & _ & Hset).
    rewrite set_attr_override in Hset. injection Hset as <- <-.
    by erewrite bind_Ok in H2 by (apply get_attr_Some; simpl; apply lookup_insert_eq).
Qed.

(** X9. An access to a derived property that raises has cached nothing:
    the sample is as it was before the access, so that a later access
    computes again. This holds for each of the six properties and for every
    exception. *)
Theorem failed_access_keeps_sample (p : derived_property) (s : Sample) (w : World)
    (e : exn) (s1 : Sample) (w1 : World) :
  access lib p s w = (Raise e, s1, w1) → s1 = s.
Proof.
  intros H. destruct p; unfold access in H;
    (apply bind_Raise_inv in H as [H|(v & s2 & w2 & _ & H)]; [|done]).
  - by eapply sha256sum_atomic.
  - by eapply file_extension_atomic.
  - by eapply mimetypes_atomic.
  - by eapply file_size_atomic.
  - by eapply analyses_time_atomic.
  - by eapply office_macros_atomic.
Qed.

(** *** Temporary files *)



(** *** The collaborators: the socket and Cuckoo *)

Lemma bind_assoc {A B C} (c : M A) (k : A → M B) (h : B → M C) s w :
  (y <- (x <- c ;; k x) ;; h y) s w = (x <- c ;; y <- k x ;; h y) s w.
Proof. unfold bind. by destruct (c s w) as [[[a|e] s1] w1]. Qed.

(** X11. [__close_socket] lets no [IOError] and no [OSError] of the socket
    escape: it returns normally when the socket closes or fails with one
    of these, and raises only what the socket raised otherwise. It leaves
    the sample and the files alone in every case, and does nothing at all
    for a sample without a socket. *)
Theorem close_socket_swallows (close_answer : World → option exn)
    (s : Sample) (w : World) (r : outcome unit) (s1 : Sample) (w1 : World) :
  close_socket close_answer s w = (r, s1, w1) →
  s1 = s ∧ w_fs w1 = w_fs w
  ∧ match r with
    | Ok _ => True
    | Raise e =>
        close_answer w = Some e ∧ s_socket s ≠ None ∧ w1 = w
        ∧ ∀ errno, e ≠ IOError errno ∧ e ≠ OSError errno
    end
  ∧ (s_socket s = None → r = Ok () ∧ w1 = w).
Proof.
  unfold close_socket, try_except. rewrite bind_gets.
  destruct (s_socket s) as [socket|]; [|by intros [= <- <- <-]].
  unfold socket_close. rewrite bind_ask.
  destruct (close_answer w) as [e|]; [|by intros [= <- <- <-]].
  destruct e as [msg|msg| | |errno|errno]; simpl;
    try (by intros [= <- <- <-]);
    (destruct (errno =? EPIPE); by intros [= <- <- <-]).
Qed.

(** X12. [submit_to_cuckoo] stores the job id before it formats its report
    line, and formatting the line reads the hash of the file. So: when the
    client raises, the exception passes through and the sample is as it
    was. When the client accepts, the job id is stored; then either the
    call returns this id, with the hash cached and one line appended to the
    report, which names the new job id twice; or the hash was not cached
    and reading the file failed, and the call raises this [IOError] with the
    job id stored and nothing else changed. *)
Theorem submit_to_cuckoo_outcomes
    (cuckoo_submit : option string → World → outcome Z * World)
    (s : Sample) (w : World) :
  match cuckoo_submit (s_submit_path s) w with
  | (Raise e, w') => submit_to_cuckoo lib cuckoo_submit s w = (Raise e, s, w')
  | (Ok job, w') =>
      ∃ r s1 w1,
        submit_to_cuckoo lib cuckoo_submit s w = (r, s1, w1)
        ∧ s_cuckoo_job_id s1 = job
        ∧ match r with
          | Ok j =>
              j = job
              ∧ ∃ sha, s_attributes s1 !! "sha256sum" = Some sha
                       ∧ s_report s1 = s_report s ++ [submission_line lib s job sha]
          | Raise e =>
              (∃ errno, e = IOError errno)
              ∧ has_attr "sha256sum" s = false
              ∧ s1 = set_cuckoo_job_id job s
          end
  end.
Proof.
  destruct (cuckoo_submit (s_submit_path s) w) as [[job|e] w'] eqn:Hsubmit;
    unfold submit_to_cuckoo; rewrite bind_gets; unfold bind at 1;
    rewrite Hsubmit; [|done].
  rewrite bind_modify. unfold Sample_str.
  repeat rewrite bind_assoc, bind_gets. rewrite bind_assoc.
  assert (keeps_s (λ s, (s_report s, s_cuckoo_job_id s, s_filename s, s_result s))
            (sha256sum lib)) as Hkeeps by (unfold sha256sum; kept).
  specialize (Hkeeps (set_cuckoo_job_id job s) w').
  destruct (sha256sum lib (set_cuckoo_job_id job s) w') as [[[sha|e] s2] w2] eqn:Hsha.
  - erewrite bind_Ok by exact Hsha. rewrite bind_ret.
    unfold report_append. rewrite bind_modify.
    eexists _, _, _. split; [reflexivity|]. simpl in *.
    injection Hkeeps as Hreport Hjob Hname Hresult.
    split; [done|]. split; [done|]. exists sha.
    split; [by eapply sha256sum_caches|].
    unfold submission_line, sample_text. simpl. by rewrite Hreport.
  - erewrite bind_Raise by exact Hsha.
    eexists _, _, _. split; [reflexivity|]. simpl in *.
    injection Hkeeps as _ Hjob _ _. split; [done|].
    split; [by eapply sha256sum_raises|].
    split; [|by eapply sha256sum_atomic].
    destruct (has_attr "sha256sum" s) eqn:Hhas; [exfalso|done].
    apply has_attr_true in Hhas as [v Hv].
    by rewrite (sha256sum_reads_cache lib (set_cuckoo_job_id job s) w' v Hv) in Hsha.
Qed.

(** *** What [report] hands to the socket *)

Lemma emit_sent msg s w :
  ∃ w', (report_append msg ;;; send_message msg) s w
        = (Ok (), set_report (s_report s ++ [msg]) s, w')
    ∧ sent_messages (w_trace w')
      = sent_messages (w_trace w) ++ to_socket s [msg].
Proof.
  unfold report_append. rewrite bind_modify.
  destruct (send_message_sent msg (set_report (s_report s ++ [msg]) s) w)
    as (w' & Hsend & Hsent & _).
  by exists w'.
Qed.

Lemma to_socket_app s l1 l2 : to_socket s (l1 ++ l2) = to_socket s l1 ++ to_socket s l2.
Proof. unfold to_socket. by destruct (s_socket s). Qed.

Lemma report_loop_sent vs s w :
  ∃ w', for_each (ItRule <$> vs) (λ rule_result,
          filename <- gets s_filename ;;
          let message := "Datei " +:+ dquote +:+ filename +:+ dquote +:+ ": "
                         +:+ item_str lib rule_result +:+ nl in
          report_append message ;;;
          send_message message) s w
        = (Ok (),
           set_report (s_report s ++ (verdict_line lib (s_filename s) <$> vs)) s,
           w')
    ∧ sent_messages (w_trace w')
      = sent_messages (w_trace w)
        ++ to_socket s (verdict_line lib (s_filename s) <$> vs).
Proof.
  revert s w. induction vs as [|v vs IH]; intros s w.
  - exists w. simpl. unfold ret, to_socket. rewrite !app_nil_r.
    split; [by destruct s|by destruct (s_socket s); rewrite app_nil_r].
  - rewrite fmap_cons. simpl for_each.
    destruct (emit_sent (verdict_line lib (s_filename s) v) s w) as (w1 & H1 & Hsent1).
    erewrite bind_Ok; [|exact H1].
    destruct (IH (set_report (s_report s ++ [verdict_line lib (s_filename s) v]) s) w1)
      as (w' & Hrest & Hsent).
    exists w'. split.
    + etrans; [exact Hrest|]. simpl. by rewrite <- app_assoc.
    + rewrite Hsent, Hsent1, <- app_assoc. f_equal.
      unfold to_socket. simpl. by destruct (s_socket s).
Qed.

(** X13. On a sample with verdicts, [report] hands to the socket exactly
    the lines it appends to the report: every verdict line and the final
    line, each once and in the order of the report, also when sends fail;
    and it hands over nothing when the sample has no socket. *)
Theorem report_sends_what_it_appends (vs : list RuleResult) (s : Sample) (w : World) :
  s_attributes s !! "rule_results" = Some (VRules vs) →
  let lines := (verdict_line lib (s_filename s) <$> vs)
               ++ [final_line (s_filename s) (aggregate (s_result s, s_reason s) vs).1] in
  ∃ s1 w1,
    report lib s w = (Ok (), s1, w1)
    ∧ s_report s1 = s_report s ++ lines
    ∧ sent_messages (w_trace w1)
      = sent_messages (w_trace w)
        ++ match s_socket s with Some _ => lines | None => [] end.
Proof.
  intros H lines. unfold report.
  erewrite bind_Ok; [|by apply determine_result_fold].
  set (s1 := set_reason _ _).
  erewrite bind_Ok; [|by apply (get_attr_Some "rule_results" s1 w (VRules vs))].
  erewrite bind_Ok; [|reflexivity].
  destruct (report_loop_sent vs s1 w) as (w1 & Hloop & Hsent1).
  erewrite bind_Ok; [|exact Hloop].
  rewrite !bind_gets.
  destruct (emit_sent
              (final_line (s_filename s) (aggregate (s_result s, s_reason s) vs).1)
              (set_report (s_report s1 ++ (verdict_line lib (s_filename s1) <$> vs)) s1)
              w1) as (w' & H' & Hsent').
  eexists _, w'. split; [exact H'|]. simpl. split.
  - by rewrite <- app_assoc.
  - rewrite Hsent', Hsent1, <- app_assoc. subst lines.
    fold (to_socket s ((verdict_line lib (s_filename s) <$> vs)
                       ++ [final_line (s_filename s)
                             (aggregate (s_result s, s_reason s) vs).1])).
    by rewrite to_socket_app.
Qed.

(** *** The text of the report *)

Lemma append_assoc (a b c : string) : (a +:+ b) +:+ c = a +:+ (b +:+ c).
Proof.
  induction a as [|x a IH]; [done|].
  change (String x ((a +:+ b) +:+ c) = String x (a +:+ (b +:+ c))). by f_equal.
Qed.

Lemma get_peekaboo_report_app s l :
  get_peekaboo_report (set_report (s_report s ++ l) s)
  = get_peekaboo_report s +:+ foldr String.append "" l.
Proof.
  unfold get_peekaboo_report. simpl. induction (s_report s) as [|x xs IH]; simpl.
  - done.
  - by rewrite IH, append_assoc.
Qed.

(** X14. The text that [get_peekaboo_report] gives only grows at its end:
    after [report] on a sample with verdicts it is the text from before,
    followed by the verdict lines and the final line. *)
Theorem report_extends_text (vs : list RuleResult) (s : Sample) (w : World) :
  s_attributes s !! "rule_results" = Some (VRules vs) →
  ∃ s1 w1,
    report lib s w = (Ok (), s1, w1)
    ∧ get_peekaboo_report s1
      = get_peekaboo_report s
        +:+ foldr String.append ""
              ((verdict_line lib (s_filename s) <$> vs)
               ++ [final_line (s_filename s) (aggregate (s_result s, s_reason s) vs).1]).
Proof.
  intros H. destruct (report_with_verdicts lib vs s w H) as [w1 Hrun].
  eexists _, w1. split; [exact Hrun|].
  by rewrite <- get_peekaboo_report_app.
Qed.

End Further.

(** ** The further properties at work *)


Lemma determine_result_monotone_witness :
  s_attributes Demo.judged !! "rule_results" = Some (VRules Demo.verdicts)
  ∧ ∃ s1, determine_result Demo.lib Demo.judged Demo.world = (Ok (), s1, Demo.world)
      ∧ Result_value (get_result Demo.judged) ≤ Result_value (get_result s1)
      ∧ ∀ u, u ∈ Demo.verdicts → Result_value (result u) ≤ Result_value (get_result s1).
Proof.
  assert (s_attributes Demo.judged !! "rule_results" = Some (VRules Demo.verdicts))
    as Hverdicts by (vm_compute; reflexivity).
  split; [exact Hverdicts|].
  destruct (determine_result_monotone Demo.lib Demo.verdicts Demo.judged Demo.world
              Hverdicts) as (s1 & Hrun & Hheld & Hall & _).
  exists s1. split; [exact Hrun|]. split; [exact Hheld|exact Hall].
Defined.

Lemma determine_result_idempotent_witness :
  s_attributes Demo.judged !! "rule_results" = Some (VRules Demo.verdicts)
  ∧ ∃ s1, determine_result Demo.lib Demo.judged Demo.world = (Ok (), s1, Demo.world)
      ∧ determine_result Demo.lib s1 Demo.world = (Ok (), s1, Demo.world).
Proof.
  assert (s_attributes Demo.judged !! "rule_results" = Some (VRules Demo.verdicts))
    as Hverdicts by (vm_compute; reflexivity).
  split; [exact Hverdicts|].
  exact (determine_result_idempotent Demo.lib Demo.verdicts Demo.judged Demo.world
           Hverdicts).
Defined.

Lemma init_without_extension_witness :
  known_extension Demo2.plain = Ok (VStr "")
  ∧ ∃ r s1 w1, init Demo.lib Demo2.plain Demo.world = (r, s1, w1)
      ∧ s_wd s1 = s_wd Demo2.plain ∧ s_submit_path s1 = Some (s_path Demo2.plain)
      ∧ w_fs w1 = w_fs Demo.world ∧ initialized s1 = true.
Proof.
  assert (known_extension Demo2.plain = Ok (VStr "")) as Hext
    by (vm_compute; reflexivity).
  split; [exact Hext|].
  destruct (init Demo.lib Demo2.plain Demo.world) as [[r s1] w1] eqn:Hrun.
  exists r, s1, w1. split; [reflexivity|].
  exact (init_without_extension Demo.lib Demo2.plain Demo.world (VStr "") r s1 w1
           eq_refl Hext eq_refl Hrun).
Defined.

Lemma init_only_adds_entries_witness :
  w_fs Demo.world !! "/tmp/p001" = Some (File "hello")
  ∧ w_fs (init Demo.lib Demo.text Demo.world).2 !! "/tmp/p001" = Some (File "hello")
  ∧ w_fs (get_job_hash Demo.text Demo.world).2 !! "/tmp/p001" = Some (File "hello").
Proof.
  assert (w_fs Demo.world !! "/tmp/p001" = Some (File "hello")) as Hentry
    by (vm_compute; reflexivity).
  split; [exact Hentry|].
  exact (init_only_adds_entries Demo.lib Demo.text Demo.world "/tmp/p001"
           (File "hello") Hentry).
Defined.

Lemma init_with_extension_witness :
  known_extension Demo.text = Ok (VStr "txt")
  ∧ ∃ s1 w1, init Demo.lib Demo.text Demo.world = (Ok (), s1, w1)
      ∧ ∃ wd sha,
          s_wd s1 = Some wd
          ∧ s_attributes s1 !! "sha256sum" = Some sha
          ∧ s_submit_path s1
            = Some (PyStr.join wd (py_str Demo.lib sha +:+ "." +:+ "txt"))
          ∧ w_fs w1 !! wd = Some Dir
          ∧ w_fs w1 !! PyStr.join wd (py_str Demo.lib sha +:+ "." +:+ "txt")
            = Some (Symlink "/tmp/p001").
Proof.
  assert (known_extension Demo.text = Ok (VStr "txt")) as Hext
    by (vm_compute; reflexivity).
  split; [exact Hext|].
  destruct (init Demo.lib Demo.text Demo.world) as [[r s1] w1] eqn:Hrun.
  assert (r = Ok ()) as ->
    by (apply (f_equal (λ x, x.1.1)) in Hrun; vm_compute in Hrun; by subst r).
  exists s1, w1. split; [reflexivity|].
  exact (init_with_extension Demo.lib Demo.text Demo.world (VStr "txt") s1 w1
           eq_refl Hext eq_refl Hrun).
Defined.

Lemma init_report_preamble_witness :
  initialized Demo.text = false
  ∧ ∃ s1 w1, init Demo.lib Demo.text Demo.world = (Ok (), s1, w1)
      ∧ ∃ sha,
          s_attributes s1 !! "sha256sum" = Some sha
          ∧ s_report s1
            = s_report Demo.text
              ++ analysis_line Demo.lib (s_filename Demo.text) sha
                 :: meta_lines Demo.lib Demo.text
          ∧ sent_messages (w_trace w1)
            = sent_messages (w_trace Demo.world)
              ++ to_socket Demo.text [analysis_line Demo.lib (s_filename Demo.text) sha].
Proof.
  split; [reflexivity|].
  destruct (init Demo.lib Demo.text Demo.world) as [[r s1] w1] eqn:Hrun.
  assert (r = Ok ()) as ->
    by (apply (f_equal (λ x, x.1.1)) in Hrun; vm_compute in Hrun; by subst r).
  exists s1, w1. split; [reflexivity|].
  exact (init_report_preamble Demo.lib Demo.text Demo.world s1 w1 eq_refl Hrun).
Defined.

Lemma init_failure_witness :
  initialized Demo2.vanished = false
  ∧ ∃ e s1 w1, init Demo.lib Demo2.vanished Demo.world = (Raise e, s1, w1)
      ∧ s_report s1 = s_report Demo2.vanished
      ∧ (initialized s1 = false
         ∨ (∃ errno, e = IOError errno)
           ∧ ∀ w', init Demo.lib s1 w' = (Ok (), s1, w')).
Proof.
  split; [reflexivity|].
  destruct (init Demo.lib Demo2.vanished Demo.world) as [[r s1] w1] eqn:Hrun.
  assert (r = Raise (IOError ENOENT)) as ->
    by (apply (f_equal (λ x, x.1.1)) in Hrun; vm_compute in Hrun; by subst r).
  exists (IOError ENOENT), s1, w1. split; [reflexivity|].
  exact (init_failure Demo.lib Demo2.vanished Demo.world (IOError ENOENT) s1 w1
           eq_refl Hrun).
Defined.

Lemma failed_access_keeps_sample_witness :
  ∃ e s1 w1,
    access Demo.lib Sha256sum Demo2.vanished Demo.world = (Raise e, s1, w1)
    ∧ s1 = Demo2.vanished.
Proof.
  destruct (access Demo.lib Sha256sum Demo2.vanished Demo.world) as [[r s1] w1] eqn:Hrun.
  assert (r = Raise (IOError ENOENT)) as ->
    by (apply (f_equal (λ x, x.1.1)) in Hrun; vm_compute in Hrun; by subst r).
  exists (IOError ENOENT), s1, w1. split; [reflexivity|].
  exact (failed_access_keeps_sample Demo.lib Sha256sum Demo2.vanished Demo.world
           (IOError ENOENT) s1 w1 Hrun).
Defined.


Lemma close_socket_swallows_witness :
  ∃ w1, close_socket Demo2.broken_close Demo.text Demo.world = (Ok (), Demo.text, w1)
    ∧ w_fs w1 = w_fs Demo.world.
Proof.
  destruct (close_socket Demo2.broken_close Demo.text Demo.world)
    as [[r s1] w1] eqn:Hrun.
  assert (r = Ok ()) as ->
    by (apply (f_equal (λ x, x.1.1)) in Hrun; vm_compute in Hrun; by subst r).
  destruct (close_socket_swallows Demo2.broken_close Demo.text Demo.world
              (Ok ()) s1 w1 Hrun) as (-> & Hfs & _).
  exists w1. split; [reflexivity|exact Hfs].
Defined.

Lemma report_sends_what_it_appends_witness :
  s_attributes Demo.judged !! "rule_results" = Some (VRules Demo.verdicts)
  ∧ ∃ s1 w1,
      report Demo.lib Demo.judged Demo.world = (Ok (), s1, w1)
      ∧ sent_messages (w_trace w1)
        = (verdict_line Demo.lib (s_filename Demo.judged) <$> Demo.verdicts)
          ++ [final_line (s_filename Demo.judged) malicious].
Proof.
  assert (s_attributes Demo.judged !! "rule_results" = Some (VRules Demo.verdicts))
    as Hverdicts by (vm_compute; reflexivity).
  split; [exact Hverdicts|].
  destruct (report_sends_what_it_appends Demo.lib Demo.verdicts Demo.judged
              Demo.world Hverdicts) as (s1 & w1 & Hrun & _ & Hsent).
  exists s1, w1. split; [exact Hrun|]. exact Hsent.
Defined.

Lemma report_extends_text_witness :
  s_attributes Demo.judged !! "rule_results" = Some (VRules Demo.verdicts)
  ∧ ∃ s1 w1,
      report Demo.lib Demo.judged Demo.world = (Ok (), s1, w1)
      ∧ get_peekaboo_report s1
        = get_peekaboo_report Demo.judged
          +:+ foldr String.append ""
                ((verdict_line Demo.lib (s_filename Demo.judged) <$> Demo.verdicts)
                 ++ [final_line (s_filename Demo.judged)
                       (aggregate (s_result Demo.judged, s_reason Demo.judged)
                          Demo.verdicts).1]).
Proof.
  assert (s_attributes Demo.judged !! "rule_results" = Some (VRules Demo.verdicts))
    as Hverdicts by (vm_compute; reflexivity).
  split; [exact Hverdicts|].
  exact (report_extends_text Demo.lib Demo.verdicts Demo.judged Demo.world Hverdicts).
Defined.
